(** * The gccxml front end of cwrap: parser and fixup pass

    A shallow embedding of [cwrap/frontends/gccxml/gccxml_parser.py] and
    the properties of its two passes: the streaming pass that builds raw
    nodes keyed by id, and [get_result], which hooks the nodes up, gathers
    macros and aliases and returns the nodes of interest.

    The Python objects live in a heap of nodes addressed by allocation
    index; a reference field holds either the id string read from the XML
    or, after the fixup, the address of the node.  Exceptions are values
    of [exn]; a handler is a function from the parser state to a result. *)

From Stdlib Require Import ZArith Ascii String List Lia Permutation.
From Stdlib Require Import DecimalString DecimalFacts DecimalNat.
From stdpp Require Import base tactics option list strings.

Local Open Scope string_scope.
Local Open Scope Z_scope.
Local Open Scope list_scope.

(** ** Exceptions and results *)

(** A key of a Python dict as the parser uses them: a string (an XML id, a
    name), the integer [id(obj)] of an object, or an object itself (only
    ever looked up, never stored). *)
Inductive key : Type :=
| KStr (s : string)
| KInt (z : Z)
| KObj (a : nat).

Inductive exn : Type :=
| KeyError (k : key)
| ValueError
| TypeError
| AttributeError
| IndexError
| BadAddress.

(** The name of the exception class, as Python reports it.  [BadAddress]
    is not a Python exception: it marks a heap address with no object,
    which no run of the parser produces. *)
Definition exn_class (e : exn) : string :=
  match e with
  | KeyError _ => "KeyError"
  | ValueError => "ValueError"
  | TypeError => "TypeError"
  | AttributeError => "AttributeError"
  | IndexError => "IndexError"
  | BadAddress => "<bad address>"
  end.

Inductive result (A : Type) : Type :=
| Ok (a : A)
| Err (e : exn).
Arguments Ok {A} a.
Arguments Err {A} e.

Definition rbind {A B} (m : result A) (f : A -> result B) : result B :=
  match m with
  | Ok a => f a
  | Err e => Err e
  end.

Notation "'let?' x := m 'in' k" := (rbind m (fun x => k))
  (at level 10, x pattern, m at level 100, k at level 200).

Fixpoint mapM {A B} (f : A -> result B) (l : list A) : result (list B) :=
  match l with
  | [] => Ok []
  | x :: l' => let? y := f x in let? ys := mapM f l' in Ok (y :: ys)
  end.

Definition is_ok {A} (r : result A) : bool :=
  match r with Ok _ => true | Err _ => false end.

(** ** The string methods the parser calls *)

Module PyStr.

Definition code (c : ascii) : nat := nat_of_ascii c.

(** [str.isspace] on a byte string: blank, tab, newline, vertical tab,
    form feed, carriage return. *)
Definition is_space (c : ascii) : bool :=
  Nat.eqb (code c) 32 || (Nat.leb 9 (code c) && Nat.leb (code c) 13).

Definition is_digit (c : ascii) : bool :=
  Nat.leb 48 (code c) && Nat.leb (code c) 57.

Definition is_alpha_ (c : ascii) : bool :=
  (Nat.leb 97 (code c) && Nat.leb (code c) 122)
  || (Nat.leb 65 (code c) && Nat.leb (code c) 90)
  || Nat.eqb (code c) 95.

Fixpoint mem (c : ascii) (chars : string) : bool :=
  match chars with
  | EmptyString => false
  | String d r => Ascii.eqb c d || mem c r
  end.

Fixpoint lstrip_ws (s : string) : string :=
  match s with
  | EmptyString => EmptyString
  | String c r => if is_space c then lstrip_ws r else s
  end.

(** [s.rstrip(chars)]: drop the trailing characters that occur in [chars]. *)
Fixpoint rstrip (chars : string) (s : string) : string :=
  match s with
  | EmptyString => EmptyString
  | String c r =>
      match rstrip chars r with
      | EmptyString => if mem c chars then EmptyString else String c EmptyString
      | t => String c t
      end
  end.

Fixpoint rstrip_ws (s : string) : string :=
  match s with
  | EmptyString => EmptyString
  | String c r =>
      match rstrip_ws r with
      | EmptyString => if is_space c then EmptyString else String c EmptyString
      | t => String c t
      end
  end.

(** The first run of non-blank characters and what follows it. *)
Fixpoint token (s : string) : string * string :=
  match s with
  | EmptyString => (EmptyString, EmptyString)
  | String c r =>
      if is_space c then (EmptyString, s)
      else let (t, rest) := token r in (String c t, rest)
  end.

(** [s.split()]: the maximal runs of non-blank characters. *)
Fixpoint split (s : string) : list string :=
  match s with
  | EmptyString => []
  | String c r =>
      if is_space c then split r
      else match r with
           | EmptyString => [String c EmptyString]
           | String d _ =>
               if is_space d then String c EmptyString :: split r
               else match split r with
                    | w :: ws => String c w :: ws
                    | [] => [String c EmptyString]
                    end
           end
  end.

(** [s.split(None, 1)]: the first token, then the rest of the string
    with its leading blanks removed (trailing blanks stay). *)
Definition split1 (s : string) : list string :=
  match lstrip_ws s with
  | EmptyString => []
  | s1 =>
      let (t, rest) := token s1 in
      match lstrip_ws rest with
      | EmptyString => [t]
      | rest' => [t; rest']
      end
  end.

(** [s.split(sep)] for a one-character separator. *)
Fixpoint split_on (sep : ascii) (s : string) : list string :=
  match s with
  | EmptyString => [EmptyString]
  | String c r =>
      if Ascii.eqb c sep then EmptyString :: split_on sep r
      else match split_on sep r with
           | w :: ws => String c w :: ws
           | [] => [String c EmptyString]
           end
  end.

(** [s.split(sep, 1)] for a one-character separator. *)
Fixpoint split_on1 (sep : ascii) (s : string) : list string :=
  match s with
  | EmptyString => [EmptyString]
  | String c r =>
      if Ascii.eqb c sep then [EmptyString; r]
      else match split_on1 sep r with
           | w :: ws => String c w :: ws
           | [] => [String c EmptyString]
           end
  end.

(** [s.splitlines()]: lines end at "\n", "\r" or "\r\n"; no empty last
    line is produced for a final line break. *)
Fixpoint splitlines (s : string) : list string :=
  match s with
  | EmptyString => []
  | String c r =>
      if Ascii.eqb c "010" then EmptyString :: splitlines r
      else if Ascii.eqb c "013" then
        match r with
        | String d r' =>
            if Ascii.eqb d "010" then EmptyString :: splitlines r'
            else EmptyString :: splitlines r
        | EmptyString => [EmptyString]
        end
      else match splitlines r with
           | w :: ws => String c w :: ws
           | [] => [String c EmptyString]
           end
  end.

(** [s.replace(old, new)] for a non-empty [old]: occurrences are
    replaced from the left, without overlap.  [skip] counts the
    characters of a matched occurrence still to be dropped. *)
Fixpoint replace_from (old new : string) (skip : nat) (s : string) : string :=
  match s with
  | EmptyString => EmptyString
  | String c r =>
      match skip with
      | S k => replace_from old new k r
      | O =>
          if String.prefix old s
          then new +:+ replace_from old new (Nat.pred (String.length old)) r
          else String c (replace_from old new O r)
      end
  end.

Definition replace (old new s : string) : string := replace_from old new O s.

Definition startswith (p s : string) : bool := String.prefix p s.

Fixpoint join (l : list string) : string :=
  match l with
  | [] => EmptyString
  | s :: r => s +:+ join r
  end.

Definition digit_val (c : ascii) : Z := Z.of_nat (code c - 48).

Fixpoint digits_value (acc : Z) (s : string) : option Z :=
  match s with
  | EmptyString => Some acc
  | String c r =>
      if is_digit c then digits_value (10 * acc + digit_val c) r else None
  end.

(** [int(s)]: blanks around, an optional sign, decimal digits. *)
Definition int (s : string) : result Z :=
  let t := rstrip_ws (lstrip_ws s) in
  let '(sign, body) :=
    match t with
    | String "-" r => (-1, r)
    | String "+" r => (1, r)
    | _ => (1, t)
    end in
  match body with
  | EmptyString => Err ValueError
  | _ => match digits_value 0 body with
         | Some v => Ok (sign * v)
         | None => Err ValueError
         end
  end.

End PyStr.

(** ** Python dictionaries *)

Module PyDict.

(** A dict is kept as the list of its entries in the order in which the
    keys were first stored; a key occurs once.  Lookup, store and delete
    act on that list.  The order of ITERATION is another matter: this is
    Python 2 code (see the print statement of [unhandled_element]), and
    a CPython 2 dict is an open-addressing hash table that [items] and
    [values] walk slot by slot.  [items] below replays the insertions
    into such a table to find the slot of every key. *)
Definition dict (V : Type) : Type := list (key * V).

Definition key_eqb (a b : key) : bool :=
  match a, b with
  | KStr s, KStr t => String.eqb s t
  | KInt x, KInt y => Z.eqb x y
  | KObj x, KObj y => Nat.eqb x y
  | _, _ => false
  end.

Section Ops.
Context {V : Type}.

Fixpoint get (k : key) (d : dict V) : option V :=
  match d with
  | [] => None
  | (k', v) :: r => if key_eqb k k' then Some v else get k r
  end.

Definition mem (k : key) (d : dict V) : bool :=
  match get k d with Some _ => true | None => false end.

(** [d[k] = v] *)
Fixpoint set (k : key) (v : V) (d : dict V) : dict V :=
  match d with
  | [] => [(k, v)]
  | (k', v') :: r =>
      if key_eqb k k' then (k', v) :: r else (k', v') :: set k v r
  end.

Fixpoint remove (k : key) (d : dict V) : dict V :=
  match d with
  | [] => []
  | (k', v') :: r => if key_eqb k k' then r else (k', v') :: remove k r
  end.

(** [del d[k]] *)
Definition del (k : key) (d : dict V) : result (dict V) :=
  if mem k d then Ok (remove k d) else Err (KeyError k).

(** [d[k]] *)
Definition item (k : key) (d : dict V) : result V :=
  match get k d with
  | Some v => Ok v
  | None => Err (KeyError k)
  end.
End Ops.

(** *** The hash table of CPython 2.7 (64-bit build, no hash
    randomisation, which is its default) *)

Definition word : Z := 2 ^ 64.

(** [string_hash] of stringobject.c, as an unsigned word. *)
Fixpoint str_hash_loop (x : Z) (s : string) : Z :=
  match s with
  | EmptyString => x
  | String c r =>
      str_hash_loop (Z.lxor ((1000003 * x) mod word) (Z.of_nat (PyStr.code c))) r
  end.

Definition str_hash (s : string) : Z :=
  match s with
  | EmptyString => 0
  | String c _ =>
      let x := str_hash_loop (Z.shiftl (Z.of_nat (PyStr.code c)) 7) s in
      let x := Z.lxor x (Z.of_nat (String.length s)) in
      if Z.eqb x (word - 1) then word - 2 else x
  end.

(** The hash of an int is the int (-1 excepted); the hash of an object
    is taken to be its address.  Neither the addresses CPython gives to
    objects nor their hashes are modelled further: the allocation index
    stands for both. *)
Definition hash (k : key) : Z :=
  match k with
  | KStr s => str_hash s
  | KInt z => (if Z.eqb z (-1) then -2 else z) mod word
  | KObj a => Z.of_nat a
  end.

Definition table : Type := list (option key).

Definition slot_free (t : table) (i : nat) : bool :=
  match t !! i with
  | Some None => true
  | _ => false
  end.

(** The probe sequence of [lookdict]: [i = 5*i + perturb + 1], the
    perturbation shifted right by 5 after each probe. *)
Fixpoint probe (fuel : nat) (t : table) (mask i perturb : Z) : option nat :=
  match fuel with
  | O => None
  | S f =>
      let i' := (5 * i + perturb + 1) mod word in
      let j := Z.to_nat (Z.land i' mask) in
      if slot_free t j then Some j
      else probe f t mask i' (Z.shiftr perturb 5)
  end.

Definition table_add (t : table) (k : key) : table :=
  let mask := Z.of_nat (length t) - 1 in
  let h := hash k in
  let i0 := Z.land h mask in
  if slot_free t (Z.to_nat i0) then <[Z.to_nat i0 := Some k]> t
  else match probe (length t + 64) t mask i0 h with
       | Some j => <[j := Some k]> t
       | None => t
       end.

Fixpoint grow (fuel : nat) (size minused : nat) : nat :=
  match fuel with
  | O => size
  | S f => if Nat.leb size minused then grow f (2 * size)%nat minused else size
  end.

Definition table_keys (t : table) : list key := omap id t.

(** [dictresize]: a fresh table, the entries re-added in slot order. *)
Definition resize (t : table) (minused : nat) : table :=
  fold_left table_add (table_keys t) (replicate (grow (S minused) 8 minused) None).

(** Storing a key the table does not hold: add it, then resize once the
    table is two thirds full. *)
Definition table_store (t : table) (k : key) : table :=
  let t1 := table_add t k in
  let used := length (table_keys t1) in
  if Nat.leb (length t1 * 2) (used * 3)
  then resize t1 ((if Z.ltb 50000 (Z.of_nat used) then 2 else 4) * used)%nat
  else t1.

Definition table_has (t : table) (k : key) : bool :=
  existsb (fun s => match s with Some k' => key_eqb k k' | None => false end) t.

Definition build (keys : list key) : table :=
  fold_left (fun t k => if table_has t k then t else table_store t k)
            keys (replicate 8%nat None).

Fixpoint slot_of (t : table) (k : key) : nat :=
  match t with
  | [] => O
  | s :: r =>
      match s with
      | Some k' => if key_eqb k k' then O else S (slot_of r k)
      | None => S (slot_of r k)
      end
  end.

Section Items.
Context {V : Type}.

Fixpoint place (rank : key -> nat) (e : key * V) (l : list (key * V)) : list (key * V) :=
  match l with
  | [] => [e]
  | e' :: r =>
      if Nat.leb (rank (fst e)) (rank (fst e')) then e :: l
      else e' :: place rank e r
  end.

(** [d.items()]: the entries by increasing slot of their key. *)
Definition items (d : dict V) : list (key * V) :=
  let t := build (map fst d) in
  foldr (place (slot_of t)) [] d.

Definition values (d : dict V) : list V := map snd (items d).
End Items.

End PyDict.

(** ** The node classes *)

Module c_ast.

(** Modelled from the spec: the module [c_ast] with the node classes is
    not among the sources; the classes and their attributes are those of
    the data model of the specification (section 3), in the argument
    order of the constructor calls the parser makes.  A node is a plain
    object: it compares and hashes by identity, [location] is [None]
    until the parser sets it, and the target [typ] of a new [Alias] is
    [None].  [Variable_] stands for the class [Variable], a word Rocq reserves.  Functions, function types, operator functions and the
    [Ignored] placeholder collect arguments ([add_argument]), which
    [fixup_argtypes] resolves in order; enumerations collect values
    ([add_value]). *)

Abbreviation addr := nat (only parsing).

(** A reference field: the id string of the XML, or the node itself. *)
Inductive ref : Type :=
| Id (s : string)
| Ptr (a : addr).

Record Argument : Type := mkArgument { arg_typ : ref; arg_name : option string }.
Record EnumValue : Type := mkEnumValue { ev_name : string; ev_value : string }.

Inductive node_data : Type :=
| File (name : string)
| Namespace (name : string) (members : list ref)
| Variable_ (name : string) (typ context : ref) (init : option string)
| Typedef (name : string) (typ context : ref)
| FundamentalType (name size align : string)
| PointerType (typ : ref) (size align : string)
| ArrayType (typ : ref) (min max : Z)
| CvQualifiedType (typ : ref) (const volatile : option string)
| Function (name : string) (returns context : ref)
           (attributes : list string) (extern : option string)
           (arguments : list Argument)
| FunctionType (returns : ref) (attributes : list string)
               (arguments : list Argument)
| OperatorFunction (name : string) (returns context : ref)
                   (attributes : list string) (extern : option string)
                   (arguments : list Argument)
| Enumeration (name : option string) (size align : string)
              (values : list EnumValue)
| Struct (name align : string) (members : list ref) (context : ref)
         (bases : list ref) (size : option string)
| Union (name align : string) (members : list ref) (context : ref)
        (bases : list ref) (size : option string)
| Field (name : string) (typ context : ref) (bits offset : option string)
| Macro (name args body : string)
| Alias (name value : string) (typ : option addr)
| Ignored (name : string) (arguments : list Argument).

Inductive loc : Type :=
| NoLocation
| RawLocation (s : string)
| FileLine (file : option string) (line : Z).

Record node : Type := mkNode { location : loc; data : node_data }.

(** [node.__class__.__name__] *)
Definition class_name (d : node_data) : string :=
  match d with
  | File _ => "File"
  | Namespace _ _ => "Namespace"
  | Variable_ _ _ _ _ => "Variable"
  | Typedef _ _ _ => "Typedef"
  | FundamentalType _ _ _ => "FundamentalType"
  | PointerType _ _ _ => "PointerType"
  | ArrayType _ _ _ => "ArrayType"
  | CvQualifiedType _ _ _ => "CvQualifiedType"
  | Function _ _ _ _ _ _ => "Function"
  | FunctionType _ _ _ => "FunctionType"
  | OperatorFunction _ _ _ _ _ _ => "OperatorFunction"
  | Enumeration _ _ _ _ => "Enumeration"
  | Struct _ _ _ _ _ _ => "Struct"
  | Union _ _ _ _ _ _ => "Union"
  | Field _ _ _ _ _ => "Field"
  | Macro _ _ _ => "Macro"
  | Alias _ _ _ => "Alias"
  | Ignored _ _ => "Ignored"
  end.

(** The attribute [name]: absent on the classes that have none, [None]
    on an enumeration without a valid name. *)
Definition attr_name (d : node_data) : option (option string) :=
  match d with
  | File n | Namespace n _ | Variable_ n _ _ _ | Typedef n _ _
  | FundamentalType n _ _ | Function n _ _ _ _ _
  | OperatorFunction n _ _ _ _ _ | Struct n _ _ _ _ _ | Union n _ _ _ _ _
  | Field n _ _ _ _ | Macro n _ _ | Alias n _ _ | Ignored n _ => Some (Some n)
  | Enumeration n _ _ _ => Some n
  | PointerType _ _ _ | ArrayType _ _ _ | CvQualifiedType _ _ _
  | FunctionType _ _ _ => None
  end.

(** [parent.add_argument(arg)] *)
Definition add_argument (arg : Argument) (d : node_data) : result node_data :=
  match d with
  | Function n r c at_ e args => Ok (Function n r c at_ e (args ++ [arg]))
  | FunctionType r at_ args => Ok (FunctionType r at_ (args ++ [arg]))
  | OperatorFunction n r c at_ e args => Ok (OperatorFunction n r c at_ e (args ++ [arg]))
  | Ignored n args => Ok (Ignored n (args ++ [arg]))
  | _ => Err AttributeError
  end.

(** [parent.add_value(val)] *)
Definition add_value (val : EnumValue) (d : node_data) : result node_data :=
  match d with
  | Enumeration n s a vals => Ok (Enumeration n s a (vals ++ [val]))
  | _ => Err AttributeError
  end.

End c_ast.

(** ** The parser *)

Module GCCXMLParser.
Import c_ast.

Definition attrs : Type := PyDict.dict string.

(** What [visit_Characters] appends to a dump section: the text of an
    element, or (for an element that is itself called Characters) the
    attribute dict the dispatcher hands over. *)
Inductive chunk : Type :=
| CStr (s : string)
| CDict (a : attrs).

Inductive warning : Type :=
| NoRevision
| OldRevision (major minor : Z).

(** The parser object, with the heap of the nodes it has created and
    what it has printed.  [cdata] is [None] or the list most recently
    stored in [cpp_data] under a name: it is kept as that name. *)
Record parser : Type := mkParser {
  context : list (option addr);
  all : PyDict.dict addr;
  cpp_data : PyDict.dict (list chunk);
  cdata : option string;
  cvs_revision : option (list Z);
  heap : list node;
  stdout : list string;
  warnings : list warning
}.

(** [__init__] *)
Definition init : parser :=
  {| context := []; all := []; cpp_data := []; cdata := None;
     cvs_revision := None; heap := []; stdout := []; warnings := [] |}.

Definition with_context (c : list (option addr)) (p : parser) : parser :=
  mkParser c (all p) (cpp_data p) (cdata p) (cvs_revision p) (heap p) (stdout p) (warnings p).
Definition with_all (d : PyDict.dict addr) (p : parser) : parser :=
  mkParser (context p) d (cpp_data p) (cdata p) (cvs_revision p) (heap p) (stdout p) (warnings p).
Definition with_cpp_data (d : PyDict.dict (list chunk)) (p : parser) : parser :=
  mkParser (context p) (all p) d (cdata p) (cvs_revision p) (heap p) (stdout p) (warnings p).
Definition with_cdata (c : option string) (p : parser) : parser :=
  mkParser (context p) (all p) (cpp_data p) c (cvs_revision p) (heap p) (stdout p) (warnings p).
Definition with_cvs_revision (r : option (list Z)) (p : parser) : parser :=
  mkParser (context p) (all p) (cpp_data p) (cdata p) r (heap p) (stdout p) (warnings p).
Definition with_heap (h : list node) (p : parser) : parser :=
  mkParser (context p) (all p) (cpp_data p) (cdata p) (cvs_revision p) h (stdout p) (warnings p).
Definition with_stdout (o : list string) (p : parser) : parser :=
  mkParser (context p) (all p) (cpp_data p) (cdata p) (cvs_revision p) (heap p) o (warnings p).
Definition with_warnings (w : list warning) (p : parser) : parser :=
  mkParser (context p) (all p) (cpp_data p) (cdata p) (cvs_revision p) (heap p) (stdout p) w.

(** *** A method: state in, value and state out, or an exception *)

Definition M (A : Type) : Type := parser -> result (A * parser).

Definition ret {A} (a : A) : M A := fun st => Ok (a, st).
Definition bind {A B} (m : M A) (f : A -> M B) : M B :=
  fun st => match m st with
            | Ok (a, st') => f a st'
            | Err e => Err e
            end.
Definition lift {A} (r : result A) : M A :=
  fun st => match r with
            | Ok a => Ok (a, st)
            | Err e => Err e
            end.
Definition gets {A} (f : parser -> A) : M A := fun st => Ok (f st, st).
Definition modify (f : parser -> parser) : M unit := fun st => Ok (tt, f st).

Notation "'do' x <- m ; k" := (bind m (fun x => k))
  (at level 10, x pattern, m at level 100, k at level 200).

Fixpoint forM_ {A} (f : A -> M unit) (l : list A) : M unit :=
  match l with
  | [] => ret tt
  | x :: l' => do _ <- f x; forM_ f l'
  end.

(** *** Heap access *)

Definition py_id (a : addr) : Z := Z.of_nat a.

Definition read (h : list node) (a : addr) : result node :=
  match h !! a with
  | Some n => Ok n
  | None => Err BadAddress
  end.

(** Create an object of a node class. *)
Definition new (d : node_data) : M addr :=
  fun st => Ok (length (heap st), with_heap (heap st ++ [mkNode NoLocation d]) st).

Definition load (a : addr) : M node := fun st => lift (read (heap st) a) st.

Definition store (a : addr) (n : node) : M unit :=
  modify (fun st => with_heap (<[a := n]> (heap st)) st).

(** *** Attribute access on the dict of an element *)

(** [attrs[k]] *)
Definition attr (k : string) (a : attrs) : M string := lift (PyDict.item (KStr k) a).

(** [attrs.get(k)] *)
Definition attr_get (k : string) (a : attrs) : option string := PyDict.get (KStr k) a.

(** [attrs.get(k, '')] *)
Definition attr_or_empty (k : string) (a : attrs) : string :=
  match attr_get k a with
  | Some v => v
  | None => EmptyString
  end.

(** *** Module-level helpers *)

Definition MAKE_NAME (name : string) : result string :=
  let name := PyStr.replace "$" "DOLLAR" name in
  let name := PyStr.replace "." "DOT" name in
  if PyStr.startswith "__" name then Ok ("_X" +:+ name)
  else match name with
       | EmptyString => Err IndexError
       | String c _ =>
           if PyStr.mem c "01234567879" then Ok ("_" +:+ name) else Ok name
       end.

(** The tail of [WORDPAT]: word characters up to the end of the string,
    where [$] also matches before one final newline. *)
Fixpoint word_tail (s : string) : bool :=
  match s with
  | EmptyString => true
  | String c r =>
      if PyStr.is_alpha_ c || PyStr.is_digit c then word_tail r
      else Ascii.eqb c "010" && match r with EmptyString => true | _ => false end
  end.

Definition WORDPAT_match (s : string) : bool :=
  match s with
  | EmptyString => false
  | String c r => PyStr.is_alpha_ c && word_tail r
  end.

Definition CHECK_NAME (name : string) : option string :=
  if WORDPAT_match name then Some name else None.

Definition has_subelements : list string :=
  ["Enumeration"; "Function"; "FunctionType"; "OperatorFunction"; "Method";
   "Constructor"; "Destructor"; "OperatorMethod"].

Definition str_in (s : string) (l : list string) : bool := existsb (String.eqb s) l.

(** *** Element handlers *)

Definition unhandled_element (name : string) (a : attrs) : M (option addr) :=
  do _ <- modify (fun st =>
            with_stdout (stdout st ++ ["Unhandled element `" +:+ name +:+ "`."]) st);
  ret None.

Definition visit_Ignored (a : attrs) : M (option addr) :=
  do name <- match attr_get "name" a with
             | Some n => ret n
             | None => match attr_get "mangled" a with
                       | None => ret "UNDEFINED"
                       | Some m => lift (MAKE_NAME m)
                       end
             end;
  do r <- new (Ignored name []);
  ret (Some r).

Definition visit_Ellipsis (a : attrs) : M (option addr) := ret None.

Definition visit_GCC_XML (a : attrs) : M (option addr) :=
  do rev <- attr "cvs_revision" a;
  do t <- lift (mapM PyStr.int (PyStr.split_on "." rev));
  do _ <- modify (with_cvs_revision (Some t));
  ret None.

Definition visit_Characters (content : chunk) : M unit :=
  fun st =>
    match cdata st with
    | None => Ok (tt, st)
    | Some name =>
        match PyDict.get (KStr name) (cpp_data st) with
        | Some l => Ok (tt, with_cpp_data (PyDict.set (KStr name) (l ++ [content]) (cpp_data st)) st)
        | None => Ok (tt, st)
        end
    end.

Definition visit_CPP_DUMP (a : attrs) : M (option addr) :=
  do name <- attr "name" a;
  do _ <- modify (fun st =>
            with_cdata (Some name) (with_cpp_data (PyDict.set (KStr name) [] (cpp_data st)) st));
  ret None.

Definition visit_Namespace (a : attrs) : M (option addr) :=
  do name <- attr "name" a;
  do members <- attr "members" a;
  do r <- new (Namespace name (map Id (PyStr.split members)));
  ret (Some r).

Definition visit_File (a : attrs) : M (option addr) :=
  do name <- attr "name" a;
  do r <- new (File name);
  ret (Some r).

Definition visit_Variable (a : attrs) : M (option addr) :=
  do name <- attr "name" a;
  do typ <- attr "type" a;
  do context <- attr "context" a;
  do r <- new (Variable_ name (Id typ) (Id context) (attr_get "init" a));
  ret (Some r).

Definition visit_Typedef (a : attrs) : M (option addr) :=
  do name <- attr "name" a;
  do typ <- attr "type" a;
  do context <- attr "context" a;
  do r <- new (Typedef name (Id typ) (Id context));
  ret (Some r).

Definition visit_FundamentalType (a : attrs) : M (option addr) :=
  do name <- attr "name" a;
  do size <- (if String.eqb name "void" then ret EmptyString else attr "size" a);
  do align <- attr "align" a;
  do r <- new (FundamentalType name size align);
  ret (Some r).

Definition visit_PointerType (a : attrs) : M (option addr) :=
  do typ <- attr "type" a;
  do size <- attr "size" a;
  do align <- attr "align" a;
  do r <- new (PointerType (Id typ) size align);
  ret (Some r).

Definition visit_ReferenceType := visit_PointerType.

Definition sentinel : string := "ffffffffffffffff".

Definition visit_ArrayType (a : attrs) : M (option addr) :=
  do typ <- attr "type" a;
  do min <- attr "min" a;
  do max <- attr "max" a;
  let max := if String.eqb max sentinel then "-1" else max in
  let max := if String.eqb max "" then "-1" else max in
  do min <- lift (PyStr.int (PyStr.rstrip "lu" min));
  do max <- lift (PyStr.int (PyStr.rstrip "lu" max));
  do r <- new (ArrayType (Id typ) min max);
  ret (Some r).

Definition visit_CvQualifiedType (a : attrs) : M (option addr) :=
  do typ <- attr "type" a;
  do r <- new (CvQualifiedType (Id typ) (attr_get "const" a) (attr_get "volatile" a));
  ret (Some r).

Definition visit_Function (a : attrs) : M (option addr) :=
  do name <- attr "name" a;
  do returns <- attr "returns" a;
  do context <- attr "context" a;
  let attributes := PyStr.split (attr_or_empty "attributes" a) in
  do r <- new (Function name (Id returns) (Id context) attributes (attr_get "extern" a) []);
  ret (Some r).

Definition visit_FunctionType (a : attrs) : M (option addr) :=
  do returns <- attr "returns" a;
  let attributes := PyStr.split (attr_or_empty "attributes" a) in
  do r <- new (FunctionType (Id returns) attributes []);
  ret (Some r).

Definition visit_OperatorFunction (a : attrs) : M (option addr) :=
  do name <- attr "name" a;
  do returns <- attr "returns" a;
  do context <- attr "context" a;
  let attributes := PyStr.split (attr_or_empty "attributes" a) in
  do r <- new (OperatorFunction name (Id returns) (Id context) attributes (attr_get "extern" a) []);
  ret (Some r).

(** [self.context[-1]] *)
Definition context_top : M (option addr) :=
  fun st => match last (context st) with
            | Some p => Ok (p, st)
            | None => Err IndexError
            end.

Definition visit_Argument (a : attrs) : M (option addr) :=
  do parent <- context_top;
  match parent with
  | Some p =>
      do typ <- attr "type" a;
      let arg := mkArgument (Id typ) (attr_get "name" a) in
      do n <- load p;
      do d <- lift (add_argument arg (data n));
      do _ <- store p (mkNode (location n) d);
      ret None
  | None => ret None
  end.

Definition visit_Enumeration (a : attrs) : M (option addr) :=
  do name <- attr "name" a;
  do size <- attr "size" a;
  do align <- attr "align" a;
  do r <- new (Enumeration (CHECK_NAME name) size align []);
  ret (Some r).

Definition visit_EnumValue (a : attrs) : M (option addr) :=
  do parent <- context_top;
  match parent with
  | Some p =>
      do name <- attr "name" a;
      do value <- attr "init" a;
      do n <- load p;
      do d <- lift (add_value (mkEnumValue name value) (data n));
      do _ <- store p (mkNode (location n) d);
      ret None
  | None => ret None
  end.

(** [attrs.get('name')], with the mangled name as fallback. *)
Definition record_name (a : attrs) : M string :=
  match attr_get "name" a with
  | Some n => ret n
  | None => do m <- attr "mangled" a; lift (MAKE_NAME m)
  end.

Definition visit_Struct (a : attrs) : M (option addr) :=
  do name <- record_name a;
  let bases := PyStr.split (attr_or_empty "bases" a) in
  let members := PyStr.split (attr_or_empty "members" a) in
  do context <- attr "context" a;
  do align <- attr "align" a;
  do r <- new (Struct name align (map Id members) (Id context) (map Id bases) (attr_get "size" a));
  ret (Some r).

Definition visit_Class (a : attrs) : M (option addr) :=
  do name <- record_name a;
  let bases := PyStr.split (attr_or_empty "bases" a) in
  let bases := map (PyStr.replace "protected:" "") bases in
  let members := PyStr.split (attr_or_empty "members" a) in
  do context <- attr "context" a;
  do align <- attr "align" a;
  do r <- new (Struct name align (map Id members) (Id context) (map Id bases) (attr_get "size" a));
  ret (Some r).

Definition visit_Union (a : attrs) : M (option addr) :=
  do name <- record_name a;
  let bases := PyStr.split (attr_or_empty "bases" a) in
  let members := PyStr.split (attr_or_empty "members" a) in
  do context <- attr "context" a;
  do align <- attr "align" a;
  do r <- new (Union name align (map Id members) (Id context) (map Id bases) (attr_get "size" a));
  ret (Some r).

Definition visit_Field (a : attrs) : M (option addr) :=
  do name <- attr "name" a;
  do typ <- attr "type" a;
  do context <- attr "context" a;
  do r <- new (Field name (Id typ) (Id context) (attr_get "bits" a) (attr_get "offset" a));
  ret (Some r).

(** The attributes of the class whose names start with [visit_]. *)
Definition visit_methods : list (string * (attrs -> M (option addr))) :=
  [("visit_Ignored", visit_Ignored); ("visit_Method", visit_Ignored);
   ("visit_Constructor", visit_Ignored); ("visit_Destructor", visit_Ignored);
   ("visit_OperatorMethod", visit_Ignored); ("visit_Base", visit_Ignored);
   ("visit_Converter", visit_Ignored); ("visit_MethodType", visit_Ignored);
   ("visit_Ellipsis", visit_Ellipsis); ("visit_OffsetType", visit_Ignored);
   ("visit_GCC_XML", visit_GCC_XML);
   ("visit_Characters", fun a => do _ <- visit_Characters (CDict a); ret None);
   ("visit_CPP_DUMP", visit_CPP_DUMP); ("visit_Namespace", visit_Namespace);
   ("visit_File", visit_File); ("visit_Variable", visit_Variable);
   ("visit_Typedef", visit_Typedef); ("visit_FundamentalType", visit_FundamentalType);
   ("visit_PointerType", visit_PointerType); ("visit_ReferenceType", visit_ReferenceType);
   ("visit_ArrayType", visit_ArrayType); ("visit_CvQualifiedType", visit_CvQualifiedType);
   ("visit_Function", visit_Function); ("visit_FunctionType", visit_FunctionType);
   ("visit_OperatorFunction", visit_OperatorFunction); ("visit_Argument", visit_Argument);
   ("visit_Enumeration", visit_Enumeration); ("visit_EnumValue", visit_EnumValue);
   ("visit_Struct", visit_Struct); ("visit_Class", visit_Class);
   ("visit_Union", visit_Union); ("visit_Field", visit_Field)].

Fixpoint getattr {A} (name : string) (methods : list (string * A)) : option A :=
  match methods with
  | [] => None
  | (n, m) :: r => if String.eqb name n then Some m else getattr name r
  end.

(** *** The streaming pass *)

Definition start_element (name : string) (a : attrs) : M unit :=
  do result <- match getattr ("visit_" +:+ name) visit_methods with
               | None => unhandled_element name a
               | Some mth => mth a
               end;
  do _ <- match result with
          | Some r =>
              do _ <- match attr_get "location" a with
                      | Some l => do n <- load r; store r (mkNode (RawLocation l) (data n))
                      | None => ret tt
                      end;
              match attr_get "id" a with
              | Some i => modify (fun st => with_all (PyDict.set (KStr i) r (all st)) st)
              | None => modify (fun st => with_all (PyDict.set (KInt (py_id r)) r (all st)) st)
              end
          | None => ret tt
          end;
  if str_in name has_subelements
  then modify (fun st => with_context (context st ++ [result]) st)
  else ret tt.

Definition end_element (name : string) : M unit :=
  do _ <- (if str_in name has_subelements
           then fun st => match context st with
                          | [] => Err IndexError
                          | c => Ok (tt, with_context (removelast c) st)
                          end
           else ret tt);
  modify (with_cdata None).

(** The events of [iterparse]: the start of an element with its
    attributes, and its end with the text it holds. *)
Inductive event : Type :=
| Start (tag : string) (items : list (string * string))
| End (tag : string) (text : option string).

(** [dict(node.items())] *)
Definition dict_of (items : list (string * string)) : attrs :=
  fold_left (fun d kv => PyDict.set (KStr (fst kv)) (snd kv) d) items [].

Definition handle (ev : event) : M unit :=
  match ev with
  | Start tag items => start_element tag (dict_of items)
  | End tag text =>
      do _ <- match text with
              | Some (String c r) => visit_Characters (CStr (String c r))
              | _ => ret tt
              end;
      end_element tag
  end.

Definition parse (xmlfile : list event) : M unit := forM_ handle xmlfile.

(** *** Fixup handlers *)

Definition registry : Type := PyDict.dict addr.

(** What a reference field is as a key of [self.all]. *)
Definition key_of (r : ref) : key :=
  match r with
  | Id s => KStr s
  | Ptr a => KObj a
  end.

(** [self.all[r]] *)
Definition lookup (reg : registry) (r : ref) : result ref :=
  let? a := PyDict.item (key_of r) reg in Ok (Ptr a).

(** [func.fixup_argtypes(self.all)] *)
Definition fixup_argtypes (reg : registry) (args : list Argument) : result (list Argument) :=
  mapM (fun a => let? t := lookup reg (arg_typ a) in Ok (mkArgument t (arg_name a))) args.

(** A fixup handler is found through the class name of the node, so it
    only ever meets the class it is written for; on another class it is
    left to fail. *)
Definition _fixup_Namespace (reg : registry) (d : node_data) : result node_data :=
  match d with
  | Namespace n members => let? ms := mapM (lookup reg) members in Ok (Namespace n ms)
  | _ => Err AttributeError
  end.

Definition _fixup_File (reg : registry) (d : node_data) : result node_data := Ok d.

Definition _fixup_Variable (reg : registry) (d : node_data) : result node_data :=
  match d with
  | Variable_ n typ context i =>
      let? t := lookup reg typ in
      let? c := lookup reg context in
      Ok (Variable_ n t c i)
  | _ => Err AttributeError
  end.

Definition _fixup_Typedef (reg : registry) (d : node_data) : result node_data :=
  match d with
  | Typedef n typ context =>
      let? t := lookup reg typ in
      let? c := lookup reg context in
      Ok (Typedef n t c)
  | _ => Err AttributeError
  end.

Definition _fixup_FundamentalType (reg : registry) (d : node_data) : result node_data := Ok d.

Definition _fixup_PointerType (reg : registry) (d : node_data) : result node_data :=
  match d with
  | PointerType typ s a => let? t := lookup reg typ in Ok (PointerType t s a)
  | _ => Err AttributeError
  end.

Definition _fixup_ReferenceType := _fixup_PointerType.

Definition _fixup_ArrayType (reg : registry) (d : node_data) : result node_data :=
  match d with
  | ArrayType typ lo hi => let? t := lookup reg typ in Ok (ArrayType t lo hi)
  | _ => Err AttributeError
  end.

Definition _fixup_CvQualifiedType (reg : registry) (d : node_data) : result node_data :=
  match d with
  | CvQualifiedType typ c v => let? t := lookup reg typ in Ok (CvQualifiedType t c v)
  | _ => Err AttributeError
  end.

Definition _fixup_Function (reg : registry) (d : node_data) : result node_data :=
  match d with
  | Function n returns context at_ e args =>
      let? r := lookup reg returns in
      let? c := lookup reg context in
      let? args' := fixup_argtypes reg args in
      Ok (Function n r c at_ e args')
  | _ => Err AttributeError
  end.

Definition _fixup_FunctionType (reg : registry) (d : node_data) : result node_data :=
  match d with
  | FunctionType returns at_ args =>
      let? r := lookup reg returns in
      let? args' := fixup_argtypes reg args in
      Ok (FunctionType r at_ args')
  | _ => Err AttributeError
  end.

Definition _fixup_OperatorFunction (reg : registry) (d : node_data) : result node_data :=
  match d with
  | OperatorFunction n returns context at_ e args =>
      let? r := lookup reg returns in
      let? c := lookup reg context in
      let? args' := fixup_argtypes reg args in
      Ok (OperatorFunction n r c at_ e args')
  | _ => Err AttributeError
  end.

Definition _fixup_Enumeration (reg : registry) (d : node_data) : result node_data := Ok d.

Definition _fixup_EnumValue (reg : registry) (d : node_data) : result node_data := Ok d.

Definition _fixup_Struct (reg : registry) (d : node_data) : result node_data :=
  match d with
  | Struct n al members context bases sz =>
      let? ms := mapM (lookup reg) members in
      let? bs := mapM (lookup reg) bases in
      let? c := lookup reg context in
      Ok (Struct n al ms c bs sz)
  | _ => Err AttributeError
  end.

Definition _fixup_Union (reg : registry) (d : node_data) : result node_data :=
  match d with
  | Union n al members context bases sz =>
      let? ms := mapM (lookup reg) members in
      let? bs := mapM (lookup reg) bases in
      let? c := lookup reg context in
      Ok (Union n al ms c bs sz)
  | _ => Err AttributeError
  end.

Definition _fixup_Field (reg : registry) (d : node_data) : result node_data :=
  match d with
  | Field n typ context b o =>
      let? t := lookup reg typ in
      let? c := lookup reg context in
      Ok (Field n t c b o)
  | _ => Err AttributeError
  end.

Definition _fixup_Macro (reg : registry) (d : node_data) : result node_data := Ok d.

Definition _fixup_Ignored (reg : registry) (d : node_data) : result node_data := Ok d.

(** The attributes of the class whose names start with [_fixup_]. *)
Definition fixup_methods : list (string * (registry -> node_data -> result node_data)) :=
  [("_fixup_Namespace", _fixup_Namespace); ("_fixup_File", _fixup_File);
   ("_fixup_Variable", _fixup_Variable); ("_fixup_Typedef", _fixup_Typedef);
   ("_fixup_FundamentalType", _fixup_FundamentalType);
   ("_fixup_PointerType", _fixup_PointerType);
   ("_fixup_ReferenceType", _fixup_ReferenceType);
   ("_fixup_ArrayType", _fixup_ArrayType);
   ("_fixup_CvQualifiedType", _fixup_CvQualifiedType);
   ("_fixup_Function", _fixup_Function); ("_fixup_FunctionType", _fixup_FunctionType);
   ("_fixup_OperatorFunction", _fixup_OperatorFunction);
   ("_fixup_Enumeration", _fixup_Enumeration); ("_fixup_EnumValue", _fixup_EnumValue);
   ("_fixup_Struct", _fixup_Struct); ("_fixup_Union", _fixup_Union);
   ("_fixup_Field", _fixup_Field); ("_fixup_Macro", _fixup_Macro);
   ("_fixup_Ignored", _fixup_Ignored); ("_fixup_Method", _fixup_Ignored);
   ("_fixup_Constructor", _fixup_Ignored); ("_fixup_Destructor", _fixup_Ignored);
   ("_fixup_OperatorMethod", _fixup_Ignored)].

(** *** Post parsing helpers *)

Definition register (name : string) (r : addr) : M unit :=
  modify (fun st => with_all (PyDict.set (KStr name) r (all st)) st).

(** [''.join(text)] *)
Definition join_text (text : list chunk) : result string :=
  let? l := mapM (fun c => match c with CStr s => Ok s | CDict _ => Err TypeError end) text in
  Ok (PyStr.join l).

(** The body of the loop of [get_macros]. *)
Definition macro_line (m : string) : M unit :=
  match PyStr.split1 m with
  | [name; body] =>
      match PyStr.split_on1 "(" name with
      | [name; args] =>
          do r <- new (Macro name ("(" +:+ args) body);
          register name r
      | _ => lift (Err ValueError)
      end
  | _ => lift (Err ValueError)
  end.

Definition get_macros (text : option (list chunk)) : M unit :=
  match text with
  | None => ret tt
  | Some t =>
      do s <- lift (join_text t);
      forM_ macro_line (PyStr.splitlines s)
  end.

(** The first loop of [get_aliases], with the local dict [aliases]. *)
Fixpoint read_aliases (lines : list string) (aliases : PyDict.dict addr) : M (PyDict.dict addr) :=
  match lines with
  | [] => ret aliases
  | a :: rest =>
      match PyStr.split1 a with
      | [name; value] =>
          do r <- new (Alias name value None);
          do _ <- register name r;
          read_aliases rest (PyDict.set (KStr name) r aliases)
      | _ => lift (Err ValueError)
      end
  end.

(** The body of its second loop. *)
Definition resolve_alias (namespace aliases : PyDict.dict addr) (e : key * addr) : M unit :=
  do n <- load (snd e);
  match data n with
  | Alias name value typ =>
      match PyDict.get (KStr value) namespace with
      | Some t => store (snd e) (mkNode (location n) (Alias name value (Some t)))
      | None =>
          match PyDict.get (KStr value) aliases with
          | Some t => store (snd e) (mkNode (location n) (Alias name value (Some t)))
          | None => ret tt
          end
      end
  | _ => lift (Err AttributeError)
  end.

Definition get_aliases (text : option (list chunk)) (namespace : PyDict.dict addr) : M unit :=
  match text with
  | None => ret tt
  | Some t =>
      do s <- lift (join_text t);
      do aliases <- read_aliases (PyStr.splitlines s) [];
      forM_ (resolve_alias namespace aliases) (PyDict.items aliases)
  end.

(** Comparison of tuples of ints. *)
Fixpoint tuple_lt (a b : list Z) : bool :=
  match a, b with
  | [], [] => false
  | [], _ :: _ => true
  | _ :: _, [] => false
  | x :: a', y :: b' =>
      if Z.ltb x y then true else if Z.ltb y x then false else tuple_lt a' b'
  end.

Definition warn (w : warning) : M unit :=
  modify (fun st => with_warnings (warnings st ++ [w]) st).

(** The warnings for early gccxml versions; the message formats a pair. *)
Definition check_revision : M unit :=
  do rev <- gets cvs_revision;
  match rev with
  | None => warn NoRevision
  | Some r =>
      if tuple_lt r [1; 114]
      then match r with
           | [major; minor] => warn (OldRevision major minor)
           | _ => lift (Err TypeError)
           end
      else ret tt
  end.

(** [node.location = (self.all[fil].name, int(line))] *)
Definition fixup_location (reg : registry) (h : list node) (l : loc) : result loc :=
  match l with
  | NoLocation => Ok NoLocation
  | RawLocation s =>
      match PyStr.split_on ":" s with
      | [fil; line] =>
          let? f := PyDict.item (KStr fil) reg in
          let? n := read h f in
          match attr_name (data n) with
          | Some name => let? ln := PyStr.int line in Ok (FileLine name ln)
          | None => Err AttributeError
          end
      | _ => Err ValueError
      end
  | FileLine _ _ => Err AttributeError
  end.

(** The body of the loop over [self.all.items()]. *)
Definition fixup_entry (remove : list addr) (e : key * addr) : M (list addr) :=
  do n <- load (snd e);
  do reg <- gets all;
  do h <- gets heap;
  do l <- lift (fixup_location reg h (location n));
  match getattr ("_fixup_" +:+ class_name (data n)) fixup_methods with
  | Some fixup_method =>
      do d <- lift (fixup_method reg (data n));
      do _ <- store (snd e) (mkNode l d);
      ret remove
  | None =>
      do _ <- store (snd e) (mkNode l (data n));
      ret (remove ++ [snd e])
  end.

Fixpoint fixup_loop (items : list (key * addr)) (remove : list addr) : M (list addr) :=
  match items with
  | [] => ret remove
  | e :: rest => do remove' <- fixup_entry remove e; fixup_loop rest remove'
  end.

(** [del self.all[n]] for a node [n] of the list [remove]. *)
Definition drop (n : addr) : M unit :=
  fun st => match PyDict.del (KObj n) (all st) with
            | Ok d => Ok (tt, with_all d st)
            | Err e => Err e
            end.

(** Lines 506 to 521: hook the nodes up, then remove those without a
    handler. *)
Definition resolve : M unit :=
  do items <- gets (fun st => PyDict.items (all st));
  do remove <- fixup_loop items [];
  forM_ drop remove.

Definition interesting (d : node_data) : bool :=
  match d with
  | Typedef _ _ _ | Struct _ _ _ _ _ _ | Enumeration _ _ _ _ | Union _ _ _ _ _ _
  | Function _ _ _ _ _ _ | Variable_ _ _ _ _ | Namespace _ _ | File _ => true
  | _ => false
  end.

(** The loop over [self.all.values()]. *)
Fixpoint collect (h : list node) (nodes : list addr)
         (res : list addr) (namespace : PyDict.dict addr)
  : result (list addr * PyDict.dict addr) :=
  match nodes with
  | [] => Ok (res, namespace)
  | a :: rest =>
      let? n := read h a in
      if interesting (data n)
      then let namespace' :=
             match attr_name (data n) with
             | Some (Some name) => PyDict.set (KStr name) a namespace
             | _ => namespace
             end in
           collect h rest (res ++ [a]) namespace'
      else collect h rest res namespace
  end.

Definition get_result : M (list addr) :=
  do _ <- check_revision;
  do functions <- gets (fun st => PyDict.get (KStr "functions") (cpp_data st));
  do _ <- get_macros functions;
  do _ <- resolve;
  do nodes <- gets (fun st => PyDict.values (all st));
  do h <- gets heap;
  do rn <- lift (collect h nodes [] []);
  do aliases <- gets (fun st => PyDict.get (KStr "aliases") (cpp_data st));
  do _ <- get_aliases aliases (snd rn);
  ret (fst rn).

End GCCXMLParser.

Module gccxml_parser.

(** The function [parse] of the module: a new parser, the streaming pass,
    the result. *)
Definition parse (xmlfile : list GCCXMLParser.event)
  : result (list nat * GCCXMLParser.parser) :=
  GCCXMLParser.bind (GCCXMLParser.parse xmlfile) (fun _ => GCCXMLParser.get_result)
                    GCCXMLParser.init.

End gccxml_parser.

(** ** Notions used in the statements *)

Import c_ast GCCXMLParser.

(** The outcome of a handler that creates the node [d] and returns it. *)
Definition creates (d : node_data) (st : parser) : result (option addr * parser) :=
  Ok (Some (length (heap st)), with_heap (heap st ++ [mkNode NoLocation d]) st).

(** The decimal numeral of an integer, as C prints it. *)
Definition numeral (z : Z) : string :=
  if Z.ltb z 0
  then String "-" (DecimalString.NilEmpty.string_of_uint (Nat.to_uint (Z.abs_nat z)))
  else DecimalString.NilEmpty.string_of_uint (Nat.to_uint (Z.to_nat z)).

Fixpoint forall_chars (p : ascii -> bool) (s : string) : bool :=
  match s with
  | EmptyString => true
  | String c r => p c && forall_chars p r
  end.

(** A run of the size-suffix letters. *)
Definition size_suffix (s : string) : bool := forall_chars (fun c => PyStr.mem c "lu") s.

(** The reference fields of a node, in the order in which the fixup
    handler of its class resolves them.  The arguments of an [Ignored]
    node are not among them: its handler does nothing. *)
Definition refs (d : node_data) : list ref :=
  match d with
  | Namespace _ members => members
  | Variable_ _ t c _ | Typedef _ t c | Field _ t c _ _ => [t; c]
  | PointerType t _ _ | ArrayType t _ _ | CvQualifiedType t _ _ => [t]
  | Function _ r c _ _ args | OperatorFunction _ r c _ _ args => r :: c :: map arg_typ args
  | FunctionType r _ args => r :: map arg_typ args
  | Struct _ _ members c bases _ | Union _ _ members c bases _ => members ++ bases ++ [c]
  | _ => []
  end.

Definition is_id (r : ref) : bool :=
  match r with
  | Id _ => true
  | Ptr _ => false
  end.

(** The file id of a location that has not been resolved yet. *)
Definition location_ref (l : loc) : list ref :=
  match l with
  | RawLocation s =>
      match PyStr.split_on ":" s with
      | [fil; _] => [Id fil]
      | _ => []
      end
  | _ => []
  end.

(** The ids a node refers to: the file of its location, then its
    reference fields. *)
Definition all_refs (n : node) : list ref := location_ref (location n) ++ refs (data n).

(** What one turn of the fixup loop makes of a node: the location is
    resolved, then the handler of the class, if there is one, is run. *)
Definition fixup_node (reg : registry) (h : list node) (n : node) : result node :=
  let? l := fixup_location reg h (location n) in
  match getattr ("_fixup_" +:+ class_name (data n)) fixup_methods with
  | Some fixup_method => let? d := fixup_method reg (data n) in Ok (mkNode l d)
  | None => Ok (mkNode l (data n))
  end.

Definition handled (n : node) : bool :=
  match getattr ("_fixup_" +:+ class_name (data n)) fixup_methods with
  | Some _ => true
  | None => false
  end.

(** A node as the streaming pass leaves it: its reference fields hold id
    strings and its location, if any, is the string of the XML. *)
Definition raw_node (n : node) : bool :=
  forallb is_id (refs (data n))
  && match location n with FileLine _ _ => false | _ => true end.

(** A location that reads "file-id:line", where the id, if registered,
    belongs to a node with a name. *)
Definition location_shaped (reg : registry) (h : list node) (l : loc) : bool :=
  match l with
  | NoLocation => true
  | RawLocation s =>
      match PyStr.split_on ":" s with
      | [fil; line] =>
          is_ok (PyStr.int line)
          && match PyDict.get (KStr fil) reg with
             | Some f =>
                 match h !! f with
                 | Some n => match attr_name (data n) with Some _ => true | None => false end
                 | None => false
                 end
             | None => true
             end
      | _ => false
      end
  | FileLine _ _ => false
  end.

(** Every id the node refers to is a key of the registry. *)
Definition resolvable (reg : registry) (n : node) : bool :=
  forallb (fun r => PyDict.mem (key_of r) reg) (all_refs n).

(** [p] holds of the node of every entry of the registry. *)
Definition entries (p : node -> bool) (st : parser) : bool :=
  forallb (fun e => match heap st !! snd e with
                    | Some n => p n
                    | None => false
                    end) (all st).

Fixpoint distinct (l : list nat) : bool :=
  match l with
  | [] => true
  | a :: r => negb (existsb (Nat.eqb a) r) && distinct r
  end.

(** The registry as the streaming pass leaves it: different keys hold
    different objects, and the nodes are raw. *)
Definition streamed (st : parser) : bool :=
  distinct (map snd (all st))
  && entries raw_node st
  && entries (fun n => location_shaped (all st) (heap st) (location n)) st.

(** No key of the registry is an object: the parser stores strings and
    the integers [id(obj)]. *)
Definition plain_keys (reg : registry) : bool :=
  forallb (fun e => match fst e with KObj _ => false | _ => true end) reg.

(** The second state keeps everything of the first but the heap. *)
Definition heap_only (st st' : parser) : Prop := st' = with_heap (heap st') st.

(** The [name] attribute of every object of a heap. *)
Definition names (h : list node) : list (option (option string)) :=
  map (fun n => attr_name (data n)) h.

(** *** Documents used as examples *)

(** An element without children or text: its start and its end. *)
Definition element (tag : string) (items : list (string * string)) : list event :=
  [Start tag items; End tag None].

(** The parser after the streaming pass over a document. *)
Definition after_streaming (xmlfile : list event) : parser :=
  match GCCXMLParser.parse xmlfile init with
  | Ok (_, st) => st
  | Err _ => init
  end.

(** The parser after [parse] has returned the result for a document. *)
Definition after_result (xmlfile : list event) : parser :=
  match gccxml_parser.parse xmlfile with
  | Ok (_, st) => st
  | Err _ => init
  end.

(** struct S { struct S *next; }; *)
Definition cyclic_doc : list event :=
  element "Namespace" [("id", "_0"); ("name", "::"); ("members", "_1")]
  ++ element "Struct" [("id", "_1"); ("name", "S"); ("members", "_2");
                       ("context", "_0"); ("align", "64"); ("size", "64")]
  ++ element "Field" [("id", "_2"); ("name", "next"); ("type", "_3");
                      ("context", "_1"); ("offset", "0")]
  ++ element "PointerType" [("id", "_3"); ("type", "_1"); ("size", "64"); ("align", "64")].

(** A variable whose type id no element defines. *)
Definition dangling_doc : list event :=
  element "File" [("id", "f1"); ("name", "a.h")]
  ++ element "Variable" [("id", "v1"); ("name", "x"); ("type", "t9"); ("context", "f1")].

(** A file and one alias, #define A B. *)
Definition alias_doc : list event :=
  element "File" [("id", "f1"); ("name", "a.h")]
  ++ [Start "CPP_DUMP" [("name", "aliases")]; End "CPP_DUMP" (Some "A B")].


(** A struct B and a record D with the base "protected:B", the record
    being declared by an element of the given kind. *)
Definition derived_doc (tag : string) : list event :=
  element "Namespace" [("id", "_0"); ("name", "::"); ("members", "_1 _2")]
  ++ element "Struct" [("id", "_1"); ("name", "B"); ("context", "_0"); ("align", "32")]
  ++ element tag [("id", "_2"); ("name", "D"); ("bases", "protected:_1");
                  ("context", "_0"); ("align", "32")].

Definition derived_attrs : attrs :=
  dict_of [("id", "_2"); ("name", "D"); ("bases", "protected:_1");
           ("context", "_0"); ("align", "32")].

(** The line printed for an element without handler. *)
Definition diagnostic (name : string) : string := "Unhandled element `" +:+ name +:+ "`.".

(** A line of the macro section that splits into a header with "(" and
    a body, and a line of the alias section that splits into a name and a
    value. *)
Definition macro_shaped (m : string) : bool :=
  match PyStr.split1 m with
  | [name; _] =>
      match PyStr.split_on1 "(" name with
      | [_; _] => true
      | _ => false
      end
  | _ => false
  end.

Definition alias_shaped (a : string) : bool :=
  match PyStr.split1 a with
  | [_; _] => true
  | _ => false
  end.

(** Lines joined by newlines. *)
Fixpoint text_of (lines : list string) : string :=
  match lines with
  | [] => EmptyString
  | [l] => l
  | l :: r => l +:+ String "010" (text_of r)
  end.


(** *** Notions for the further properties *)

(** A character that [MAKE_NAME] replaces. *)
Definition mangling_char (c : ascii) : bool := Ascii.eqb c "$" || Ascii.eqb c ".".

(** A word of [WORDPAT]: a letter or underscore, then letters, digits and
    underscores. *)
Definition word_char (c : ascii) : bool := PyStr.is_alpha_ c || PyStr.is_digit c.

Definition identifier (s : string) : bool :=
  match s with
  | EmptyString => false
  | String c r => PyStr.is_alpha_ c && forall_chars word_char r
  end.


(** The newline, as a string. *)
Definition newline : string := String "010" EmptyString.

(** A name that [WORDPAT] matches: an identifier, or an identifier
    followed by one newline (where [$] matches too). *)
Definition matches_WORDPAT (name : string) : Prop :=
  exists w, identifier w = true /\ (name = w \/ name = w +:+ newline).


(** A node as the handlers of the streaming pass make them: raw, and of a
    class with a fixup handler. *)
Definition sound_node (n : node) : bool := raw_node n && handled n.

(** What a handler may do to a parser whose nodes are sound: the registry
    and the context stay, the nodes stay sound, and a returned node is one
    new object at the end of the heap. *)
Definition handler_post (st : parser) (r : option addr) (st' : parser) : Prop :=
  all st' = all st
  /\ context st' = context st
  /\ forallb sound_node (heap st') = true
  /\ match r with
     | Some a => a = length (heap st) /\ length (heap st') = S (length (heap st))
     | None => length (heap st') = length (heap st)
     end.

(** The invariant of the streaming pass. *)
Definition stream_inv (st : parser) : Prop :=
  List.NoDup (map snd (all st))
  /\ (forall k a, In (k, a) (all st) ->
        (a < length (heap st))%nat /\ match k with KObj _ => False | _ => True end)
  /\ forallb sound_node (heap st) = true
  /\ (forall p, In (Some p) (context st) -> (p < length (heap st))%nat).


(** The attributes of an Argument element with the given type and,
    possibly, name; and the events of a run of such elements. *)
Definition argument_items (a : string * option string) : list (string * string) :=
  ("type", fst a) :: match snd a with
                     | Some n => [("name", n)]
                     | None => []
                     end.

Definition argument_events (args : list (string * option string)) : list event :=
  flat_map (fun a => element "Argument" (argument_items a)) args.

(** The attributes of an EnumValue element, and a run of such elements. *)
Definition enum_value_events (vals : list (string * string)) : list event :=
  flat_map (fun v => element "EnumValue" [("name", fst v); ("init", snd v)]) vals.


(** The attributes that the handler of an element kind reads with
    [attrs[...]], in the order in which it reads them, for the kinds whose
    handler does nothing else that can fail. *)
Definition required_attributes : list (string * list string) :=
  [("Namespace", ["name"; "members"]); ("File", ["name"]);
   ("Variable", ["name"; "type"; "context"]); ("Typedef", ["name"; "type"; "context"]);
   ("PointerType", ["type"; "size"; "align"]); ("ReferenceType", ["type"; "size"; "align"]);
   ("CvQualifiedType", ["type"]); ("Function", ["name"; "returns"; "context"]);
   ("FunctionType", ["returns"]); ("OperatorFunction", ["name"; "returns"; "context"]);
   ("Enumeration", ["name"; "size"; "align"]); ("Field", ["name"; "type"; "context"])].

(** The first of the keys that the dict lacks. *)
Definition first_missing (keys : list string) (a : attrs) : option string :=
  find (fun k => negb (PyDict.mem (KStr k) a)) keys.

(** The class of the node that the handler of an element kind creates: the
    kind itself, but for a ReferenceType, which shares the handler of
    PointerType. *)
Definition node_class_of (tag : string) : string :=
  if String.eqb tag "ReferenceType" then "PointerType" else tag.


(** The classes of the tuple [interesting] of [get_result]. *)
Definition interesting_classes : list string :=
  ["Typedef"; "Struct"; "Enumeration"; "Union"; "Function"; "Variable";
   "Namespace"; "File"].


(** The target that the second loop of [get_aliases] gives an alias with
    this value: the declaration of that name, or else the alias of that
    name, or else none. *)
Definition alias_target (namespace aliases : PyDict.dict nat) (value : string) : option nat :=
  match PyDict.get (KStr value) namespace with
  | Some t => Some t
  | None => PyDict.get (KStr value) aliases
  end.

(** The dict [aliases] while the first loop of [get_aliases] runs: every
    entry is a name with the new Alias node registered under it. *)
Definition aliases_inv (h0 : nat) (aliases : PyDict.dict nat) (st : parser) : Prop :=
  (h0 <= length (heap st))%nat
  /\ List.NoDup (map fst aliases)
  /\ List.NoDup (map snd aliases)
  /\ forall k a, In (k, a) aliases ->
       (h0 <= a < length (heap st))%nat
       /\ exists name value,
            k = KStr name
            /\ heap st !! a = Some (mkNode NoLocation (Alias name value None))
            /\ PyDict.get (KStr name) (all st) = Some a.

(** * Properties *)

(** ** Strings *)

Lemma forall_chars_app p s t :
  forall_chars p (s +:+ t) = forall_chars p s && forall_chars p t.
Proof.
  induction s as [|c s IH]; simpl; [reflexivity|].
  rewrite IH. now rewrite andb_assoc.
Qed.

Lemma rstrip_all chars t :
  forall_chars (fun c => PyStr.mem c chars) t = true ->
  PyStr.rstrip chars t = EmptyString.
Proof.
  induction t as [|d t IHt]; simpl; [reflexivity|].
  intros Ht. apply andb_prop in Ht as [Hd Ht]. now rewrite (IHt Ht), Hd.
Qed.

Lemma rstrip_suffix chars s t :
  forall_chars (fun c => PyStr.mem c chars) t = true ->
  PyStr.rstrip chars (s +:+ t) = PyStr.rstrip chars s.
Proof.
  intros Ht. induction s as [|c s IH]; simpl.
  - now apply rstrip_all.
  - now rewrite IH.
Qed.

Lemma rstrip_keeps chars s :
  forall_chars (fun c => negb (PyStr.mem c chars)) s = true ->
  PyStr.rstrip chars s = s.
Proof.
  induction s as [|c s IH]; simpl; [reflexivity|].
  intros H. apply andb_prop in H as [Hc Hs]. rewrite (IH Hs).
  destruct s; [|reflexivity].
  apply negb_true_iff in Hc. now rewrite Hc.
Qed.

Lemma rstrip_ws_keeps s :
  forall_chars (fun c => negb (PyStr.is_space c)) s = true ->
  PyStr.rstrip_ws s = s.
Proof.
  induction s as [|c s IH]; simpl; [reflexivity|].
  intros H. apply andb_prop in H as [Hc Hs]. rewrite (IH Hs).
  destruct s; [|reflexivity].
  apply negb_true_iff in Hc. now rewrite Hc.
Qed.

Lemma forall_chars_impl (p q : ascii -> bool) s :
  (forall c, p c = true -> q c = true) ->
  forall_chars p s = true -> forall_chars q s = true.
Proof.
  intros Hpq. induction s as [|c s IH]; simpl; [reflexivity|].
  intros H. apply andb_prop in H as [Hc Hs].
  rewrite (Hpq _ Hc), (IH Hs). reflexivity.
Qed.

Lemma digit_not_suffix c : PyStr.is_digit c = true -> negb (PyStr.mem c "lu") = true.
Proof. destruct c as [[] [] [] [] [] [] [] []]; vm_compute; congruence. Qed.

Lemma digit_not_space c : PyStr.is_digit c = true -> negb (PyStr.is_space c) = true.
Proof. destruct c as [[] [] [] [] [] [] [] []]; vm_compute; congruence. Qed.

Lemma uint_digits d :
  forall_chars PyStr.is_digit (DecimalString.NilEmpty.string_of_uint d) = true.
Proof. induction d; simpl; auto. Qed.

Lemma uint_nonempty n : DecimalString.NilEmpty.string_of_uint (Nat.to_uint n) <> EmptyString.
Proof.
  intros H.
  assert (Hn : Nat.to_uint n <> Decimal.Nil).
  { rewrite <- (DecimalNat.Unsigned.of_to n) at 1.
    rewrite DecimalNat.Unsigned.to_of. apply DecimalFacts.unorm_nonnil. }
  destruct (Nat.to_uint n); [congruence | discriminate ..].
Qed.

Lemma digits_value_uint d (acc : nat) :
  PyStr.digits_value (Z.of_nat acc) (DecimalString.NilEmpty.string_of_uint d)
  = Some (Z.of_nat (Nat.of_uint_acc d acc)).
Proof.
  revert acc.
  induction d as [|d IH|d IH|d IH|d IH|d IH|d IH|d IH|d IH|d IH|d IH]; intros acc;
    [reflexivity | ..];
    cbn [DecimalString.NilEmpty.string_of_uint PyStr.digits_value Nat.of_uint_acc];
    change (PyStr.is_digit _) with true; cbv iota;
    rewrite <- IH; f_equal; rewrite Nat.tail_mul_spec;
    match goal with
    | |- context [PyStr.digit_val ?c] =>
        let v := eval vm_compute in (PyStr.digit_val c) in
        change (PyStr.digit_val c) with v
    end; lia.
Qed.

Lemma digits_value_numeral n :
  PyStr.digits_value 0 (DecimalString.NilEmpty.string_of_uint (Nat.to_uint n))
  = Some (Z.of_nat n).
Proof.
  change 0 with (Z.of_nat 0). rewrite digits_value_uint.
  f_equal. f_equal. apply DecimalNat.Unsigned.of_to.
Qed.

(** [int] reads back the numeral of an integer. *)
Lemma int_numeral z : PyStr.int (numeral z) = Ok z.
Proof.
  unfold numeral, PyStr.int.
  destruct (Z.ltb_spec z 0) as [Hneg|Hpos].
  - set (u := DecimalString.NilEmpty.string_of_uint (Nat.to_uint (Z.abs_nat z))).
    assert (Hu : forall_chars (fun c => negb (PyStr.is_space c)) u = true).
    { eapply forall_chars_impl; [apply digit_not_space | apply uint_digits]. }
    cbn [PyStr.lstrip_ws]. change (PyStr.is_space "-") with false. cbv iota.
    rewrite rstrip_ws_keeps by (simpl; now rewrite Hu).
    assert (Hne : u <> EmptyString) by apply uint_nonempty.
    unfold u in *. rewrite digits_value_numeral.
    destruct (DecimalString.NilEmpty.string_of_uint _) eqn:E; [congruence|].
    f_equal. lia.
  - set (u := DecimalString.NilEmpty.string_of_uint (Nat.to_uint (Z.to_nat z))).
    assert (Hd : forall_chars PyStr.is_digit u = true) by apply uint_digits.
    assert (Hu : forall_chars (fun c => negb (PyStr.is_space c)) u = true).
    { eapply forall_chars_impl; [apply digit_not_space | apply Hd]. }
    assert (Hne : u <> EmptyString) by apply uint_nonempty.
    assert (Hl : PyStr.lstrip_ws u = u).
    { destruct u as [|c r]; [reflexivity|]. simpl in Hu |- *.
      apply andb_prop in Hu as [Hc _]. apply negb_true_iff in Hc. now rewrite Hc. }
    rewrite Hl, rstrip_ws_keeps by assumption.
    assert (Hv : PyStr.digits_value 0 u = Some (Z.of_nat (Z.to_nat z)))
      by apply digits_value_numeral.
    destruct u as [|c r] eqn:E; [congruence|].
    simpl in Hd. apply andb_prop in Hd as [Hc _].
    destruct (Ascii.eqb_spec c "-") as [->|Hm]; [discriminate|].
    destruct (Ascii.eqb_spec c "+") as [->|Hp]; [discriminate|].
    assert (Hsel : match String c r with
                   | String "-" r0 => (-1, r0)
                   | String "+" r0 => (1, r0)
                   | _ => (1, String c r)
                   end = (1, String c r)).
    { destruct c as [[] [] [] [] [] [] [] []]; try reflexivity; congruence. }
    rewrite Hsel. rewrite Hv. f_equal. lia.
Qed.

Lemma numeral_chars z :
  forall_chars (fun c => PyStr.is_digit c || Ascii.eqb c "-") (numeral z) = true.
Proof.
  unfold numeral. destruct (Z.ltb z 0); simpl.
  - eapply forall_chars_impl; [|apply uint_digits]. intros c ->. reflexivity.
  - eapply forall_chars_impl; [|apply uint_digits]. intros c ->. reflexivity.
Qed.

Lemma numeral_head z :
  exists c r, numeral z = String c r /\ (PyStr.is_digit c || Ascii.eqb c "-") = true.
Proof.
  pose proof (numeral_chars z) as H. unfold numeral in *.
  destruct (Z.ltb z 0).
  - eexists _, _. split; [reflexivity|reflexivity].
  - pose proof (uint_nonempty (Z.to_nat z)) as Hne.
    destruct (NilEmpty.string_of_uint _) as [|c r]; [congruence|].
    simpl in H. apply andb_prop in H as [Hc _]. eauto.
Qed.

Lemma rstrip_numeral z suffix :
  size_suffix suffix = true -> PyStr.rstrip "lu" (numeral z +:+ suffix) = numeral z.
Proof.
  intros Hs. rewrite rstrip_suffix by exact Hs.
  apply rstrip_keeps. eapply forall_chars_impl; [|apply numeral_chars].
  intros c. destruct c as [[] [] [] [] [] [] [] []]; vm_compute; congruence.
Qed.

(** ** Running a handler *)

Lemma attr_found k a v st : attr_get k a = Some v -> attr k a st = Ok (v, st).
Proof. unfold attr_get, attr, lift, PyDict.item. now intros ->. Qed.

Lemma attr_missing k a st : attr_get k a = None -> attr k a st = Err (KeyError (KStr k)).
Proof. unfold attr_get, attr, lift, PyDict.item. now intros ->. Qed.

(** ** The bound of an array (claim C9) *)

(** C9.  [visit_ArrayType] on an element with a type and a readable
    [min]: a [max] that is the all-ones 64-bit sentinel or the empty
    string gives the bound -1, and a [max] that is the decimal numeral of
    an integer [z], followed by any run of the suffix letters l and u,
    gives the bound [z]. *)
Theorem array_max_normalised (a : attrs) (st : parser) (typ mn mx : string) (lo : Z) :
  attr_get "type" a = Some typ ->
  attr_get "min" a = Some mn ->
  PyStr.int (PyStr.rstrip "lu" mn) = Ok lo ->
  attr_get "max" a = Some mx ->
  (mx = sentinel \/ mx = "" ->
   visit_ArrayType a st = creates (ArrayType (Id typ) lo (-1)) st)
  /\ (forall z suffix, size_suffix suffix = true -> mx = numeral z +:+ suffix ->
      visit_ArrayType a st = creates (ArrayType (Id typ) lo z) st).
Proof.
  intros Ht Hmn Hlo Hmx.
  assert (Hrun : forall hi,
             PyStr.int (PyStr.rstrip "lu"
               (let m := if String.eqb mx sentinel then "-1" else mx in
                if String.eqb m "" then "-1" else m)) = Ok hi ->
             visit_ArrayType a st = creates (ArrayType (Id typ) lo hi) st).
  { intros hi Hhi. unfold visit_ArrayType, bind.
    rewrite (attr_found _ _ _ _ Ht), (attr_found _ _ _ _ Hmn), (attr_found _ _ _ _ Hmx).
    unfold lift at 1. rewrite Hlo.
    unfold lift at 1. cbv zeta in Hhi. rewrite Hhi.
    reflexivity. }
  split.
  - intros [-> | ->]; apply Hrun; reflexivity.
  - intros z suffix Hs ->. apply Hrun.
    destruct (numeral_head z) as (c & r & Hz & Hc).
    assert (E1 : String.eqb (numeral z +:+ suffix) sentinel = false).
    { rewrite Hz. simpl. destruct (Ascii.eqb_spec c "f") as [->|]; [discriminate|reflexivity]. }
    assert (E2 : String.eqb (numeral z +:+ suffix) "" = false) by (now rewrite Hz).
    cbv zeta. rewrite E1, E2, rstrip_numeral by exact Hs. apply int_numeral.
Qed.

Lemma array_max_normalised_witness :
  let a := dict_of [("type", "_7"); ("min", "0"); ("max", "41ul")] in
  visit_ArrayType (dict_of [("type", "_7"); ("min", "0"); ("max", sentinel)]) init
    = creates (ArrayType (Id "_7") 0 (-1)) init
  /\ visit_ArrayType a init = creates (ArrayType (Id "_7") 0 41) init.
Proof.
  split.
  - apply (array_max_normalised
             (dict_of [("type", "_7"); ("min", "0"); ("max", sentinel)])
             init "_7" "0" sentinel 0);
      [reflexivity | reflexivity | reflexivity | reflexivity | left; reflexivity].
  - apply (proj2 (array_max_normalised
                    (dict_of [("type", "_7"); ("min", "0"); ("max", "41ul")])
                    init "_7" "0" "41ul" 0 eq_refl eq_refl eq_refl eq_refl) 41 "ul");
      reflexivity.
Defined.

(** ** Dictionaries *)

Lemma key_eqb_eq a b : PyDict.key_eqb a b = true <-> a = b.
Proof.
  destruct a, b; simpl; split; try congruence; intros H.
  - f_equal. now apply String.eqb_eq.
  - injection H as ->. apply String.eqb_refl.
  - f_equal. now apply Z.eqb_eq.
  - injection H as ->. apply Z.eqb_refl.
  - f_equal. now apply Nat.eqb_eq.
  - injection H as ->. apply Nat.eqb_refl.
Qed.

Lemma key_eqb_refl a : PyDict.key_eqb a a = true.
Proof. now apply key_eqb_eq. Qed.

Lemma get_In {V} k (v : V) d : PyDict.get k d = Some v -> In (k, v) d.
Proof.
  induction d as [|[k' v'] d IH]; simpl; [discriminate|].
  destruct (PyDict.key_eqb k k') eqn:E.
  - apply key_eqb_eq in E as ->. intros [= ->]. now left.
  - intros H. right. now apply IH.
Qed.

Lemma In_get {V} k (v : V) d : In (k, v) d -> PyDict.get k d <> None.
Proof.
  induction d as [|[k' v'] d IH]; simpl; [tauto|].
  intros [[= -> ->]|H].
  - now rewrite key_eqb_refl.
  - destruct (PyDict.key_eqb k k'); [discriminate | now apply IH].
Qed.

Lemma get_plain {V} a (d : PyDict.dict V) :
  forallb (fun e => match fst e with KObj _ => false | _ => true end) d = true ->
  PyDict.get (KObj a) d = None.
Proof.
  induction d as [|[k v] d IH]; simpl; [reflexivity|].
  intros H. apply andb_prop in H as [Hk Hd].
  destruct k; simpl in *; try discriminate; now apply IH.
Qed.

Lemma get_set_same {V} k (v : V) d : PyDict.get k (PyDict.set k v d) = Some v.
Proof.
  induction d as [|[k' v'] d IH]; simpl.
  - now rewrite key_eqb_refl.
  - destruct (PyDict.key_eqb k k') eqn:E; simpl; rewrite E; [reflexivity | exact IH].
Qed.

Lemma get_set_other {V} k k' (v : V) d :
  k <> k' -> PyDict.get k' (PyDict.set k v d) = PyDict.get k' d.
Proof.
  intros Hne. induction d as [|[k0 v0] d IH]; simpl.
  - destruct (PyDict.key_eqb k' k) eqn:E; [|reflexivity].
    apply key_eqb_eq in E. congruence.
  - destruct (PyDict.key_eqb k k0) eqn:E; simpl.
    + apply key_eqb_eq in E as <-.
      destruct (PyDict.key_eqb k' k) eqn:E'; [|reflexivity].
      apply key_eqb_eq in E'. congruence.
    + now rewrite IH.
Qed.

Lemma place_perm {V} rank (e : key * V) l : Permutation (PyDict.place rank e l) (e :: l).
Proof.
  induction l as [|e' l IH]; simpl; [reflexivity|].
  destruct (Nat.leb _ _); [reflexivity|].
  rewrite IH. apply perm_swap.
Qed.

(** [items] lists every entry of the dict, once. *)
Lemma items_perm {V} (d : PyDict.dict V) : Permutation (PyDict.items d) d.
Proof.
  unfold PyDict.items. generalize (PyDict.slot_of (PyDict.build (map fst d))).
  intros rank. induction d as [|e d IH]; simpl; [reflexivity|].
  rewrite place_perm. now constructor.
Qed.

Lemma items_In {V} (d : PyDict.dict V) e : In e (PyDict.items d) <-> In e d.
Proof.
  split; apply Permutation_in; [apply items_perm | symmetry; apply items_perm].
Qed.

Lemma distinct_NoDup l : distinct l = true -> List.NoDup l.
Proof.
  induction l as [|a l IH]; simpl; [constructor|].
  intros H. apply andb_prop in H as [Ha Hl].
  apply List.NoDup_cons; [|now apply IH].
  intros Hin. apply negb_true_iff in Ha.
  assert (existsb (Nat.eqb a) l = true); [|congruence].
  apply existsb_exists. exists a. split; [exact Hin | apply Nat.eqb_refl].
Qed.

Lemma items_NoDup (d : PyDict.dict nat) :
  distinct (map snd d) = true -> List.NoDup (map snd (PyDict.items d)).
Proof.
  intros H. apply distinct_NoDup in H.
  eapply Permutation_NoDup; [|exact H].
  apply Permutation_map. symmetry. apply items_perm.
Qed.

Lemma entries_In p st k a :
  entries p st = true -> In (k, a) (all st) ->
  exists n, heap st !! a = Some n /\ p n = true.
Proof.
  unfold entries. rewrite forallb_forall. intros H Hin.
  specialize (H _ Hin). simpl in H.
  destruct (heap st !! a) as [n|]; [eauto | discriminate].
Qed.

(** ** One turn of the fixup loop *)

Ltac bind_cases :=
  repeat match goal with
         | |- context [rbind ?m _] =>
             lazymatch m with
             | context [rbind _ _] => fail
             | _ => destruct m eqn:?; simpl
             end
         end.

Ltac bind_inv H :=
  repeat match type of H with
         | rbind ?m _ = _ => let E := fresh "E" in destruct m eqn:E; simpl in H; [|discriminate H]
         | Ok _ = Ok _ => injection H as H
         end.

Lemma lookup_map {A B} (f : A -> B) (l : list A) (i : nat) :
  map f l !! i = option_map f (l !! i).
Proof.
  revert i. induction l as [|x l IH]; intros [|i]; simpl; auto.
Qed.

Lemma read_names h1 h2 a :
  names h1 = names h2 ->
  option_map (fun n => attr_name (data n)) (h1 !! a)
  = option_map (fun n => attr_name (data n)) (h2 !! a).
Proof. intros H. unfold names in H. now rewrite <- !lookup_map, H. Qed.

(** The location fixup reads the heap for names only. *)
Lemma fixup_location_names reg h1 h2 l :
  names h1 = names h2 -> fixup_location reg h1 l = fixup_location reg h2 l.
Proof.
  intros H. destruct l as [|s|]; simpl; try reflexivity.
  destruct (PyStr.split_on ":" s) as [|fil [|line [|]]]; try reflexivity.
  destruct (PyDict.item (KStr fil) reg) as [f|]; simpl; [|reflexivity].
  pose proof (read_names _ _ f H) as Hf. unfold read. revert Hf.
  destruct (h1 !! f), (h2 !! f); simpl; try congruence.
  intros [= E]. now rewrite E.
Qed.

Lemma location_shaped_names reg h1 h2 l :
  names h1 = names h2 -> location_shaped reg h1 l = location_shaped reg h2 l.
Proof.
  intros H. destruct l as [|s|]; simpl; try reflexivity.
  destruct (PyStr.split_on ":" s) as [|fil [|line [|]]]; try reflexivity.
  destruct (PyDict.get (KStr fil) reg) as [f|]; simpl; [|reflexivity].
  pose proof (read_names _ _ f H) as Hf. revert Hf.
  destruct (h1 !! f), (h2 !! f); simpl; try congruence.
  intros [= E]. now rewrite E.
Qed.

Lemma mapM_app {A B} (f : A -> result B) l1 l2 :
  mapM f (l1 ++ l2)
  = let? x := mapM f l1 in let? y := mapM f l2 in Ok (x ++ y).
Proof.
  induction l1 as [|a l1 IH]; simpl.
  - destruct (mapM f l2); reflexivity.
  - destruct (f a); simpl; [|reflexivity].
    rewrite IH. destruct (mapM f l1); simpl; [|reflexivity].
    destruct (mapM f l2); reflexivity.
Qed.

Lemma fixup_argtypes_refs reg args :
  match fixup_argtypes reg args with
  | Ok args' => mapM (lookup reg) (map arg_typ args) = Ok (map arg_typ args')
  | Err e => mapM (lookup reg) (map arg_typ args) = Err e
  end.
Proof.
  unfold fixup_argtypes. induction args as [|a args IH]; simpl; [reflexivity|].
  destruct (lookup reg (arg_typ a)); simpl; [|reflexivity].
  destruct (mapM _ args); simpl in *; now rewrite IH.
Qed.

(** What [fixup_node] does, class by class: the location, then the
    reference fields in order; the class and the name stay. *)
Lemma fixup_node_cases reg h n :
  match fixup_node reg h n with
  | Ok n' =>
      fixup_location reg h (location n) = Ok (location n')
      /\ mapM (lookup reg) (refs (data n)) = Ok (refs (data n'))
      /\ class_name (data n') = class_name (data n)
      /\ attr_name (data n') = attr_name (data n)
  | Err e =>
      fixup_location reg h (location n) = Err e
      \/ (is_ok (fixup_location reg h (location n)) = true
          /\ mapM (lookup reg) (refs (data n)) = Err e)
  end.
Proof.
  unfold fixup_node. destruct n as [l d]; cbn [location data].
  destruct (fixup_location reg h l) as [l'|e]; cbn [rbind is_ok]; [|now left].
  destruct d;
    match goal with
    | |- context [getattr ?n fixup_methods] =>
        let v := eval cbv [getattr fixup_methods String.append class_name String.eqb Ascii.eqb Bool.eqb] in (getattr n fixup_methods) in
        change (getattr n fixup_methods) with v
    end;
    simpl;
    unfold _fixup_Namespace, _fixup_File, _fixup_Variable, _fixup_Typedef,
      _fixup_FundamentalType, _fixup_PointerType, _fixup_ArrayType,
      _fixup_CvQualifiedType, _fixup_Function, _fixup_FunctionType,
      _fixup_OperatorFunction, _fixup_Enumeration, _fixup_Struct, _fixup_Union,
      _fixup_Field, _fixup_Macro, _fixup_Ignored;
    rewrite ?mapM_app;
    try match goal with
        | |- context [fixup_argtypes reg ?a] =>
            pose proof (fixup_argtypes_refs reg a)
        end;
    bind_cases; simpl;
    repeat match goal with
           | H : mapM _ _ = _ |- _ => rewrite H; simpl
           end;
    auto;
    try (repeat split; congruence);
    try (right; split; [reflexivity | congruence]).
Qed.

Lemma fixup_entry_eq rem e st :
  fixup_entry rem e st =
  match heap st !! snd e with
  | None => Err BadAddress
  | Some n =>
      match fixup_node (all st) (heap st) n with
      | Err x => Err x
      | Ok n' => Ok (if handled n then rem else rem ++ [snd e],
                     with_heap (<[snd e := n']> (heap st)) st)
      end
  end.
Proof.
  unfold fixup_entry, bind, load, lift, read, gets, fixup_node, handled, store, modify, ret.
  destruct (heap st !! snd e) as [n|]; [|reflexivity].
  generalize (getattr ("_fixup_" +:+ class_name (data n)) fixup_methods).
  intros g.
  destruct (fixup_location (all st) (heap st) (location n)); [|reflexivity].
  destruct g as [f|]; [|reflexivity].
  unfold rbind. destruct (f (all st) (data n)); reflexivity.
Qed.

Lemma names_insert h a n n' :
  h !! a = Some n -> attr_name (data n') = attr_name (data n) ->
  names (<[a := n']> h) = names h.
Proof.
  unfold names. revert a. induction h as [|x h IH]; intros [|a]; simpl; try discriminate.
  - intros [= ->] ->. reflexivity.
  - intros H1 H2. f_equal. now apply IH.
Qed.

Lemma fixup_node_names reg h1 h2 n :
  names h1 = names h2 -> fixup_node reg h1 n = fixup_node reg h2 n.
Proof. intros H. unfold fixup_node. now rewrite (fixup_location_names _ _ _ _ H). Qed.

Lemma fixup_node_name reg h n n' :
  fixup_node reg h n = Ok n' -> attr_name (data n') = attr_name (data n).
Proof. intros H. pose proof (fixup_node_cases reg h n) as C. rewrite H in C. tauto. Qed.

(** The nodes of [l] that have no fixup handler, in order. *)
Lemma fixup_loop_spec l : forall st rem,
  List.NoDup (map snd l) ->
  (forall e, In e l -> exists n n', heap st !! snd e = Some n
                                    /\ fixup_node (all st) (heap st) n = Ok n') ->
  exists st' rem',
    fixup_loop l rem st = Ok (rem', st')
    /\ heap_only st st'
    /\ names (heap st') = names (heap st)
    /\ length (heap st') = length (heap st)
    /\ (forall a, ~ In a (map snd l) -> heap st' !! a = heap st !! a)
    /\ (forall e n, In e l -> heap st !! snd e = Some n ->
        exists n', fixup_node (all st) (heap st) n = Ok n' /\ heap st' !! snd e = Some n')
    /\ (forall a, In a rem' ->
        In a rem \/ (In a (map snd l)
                     /\ exists n, heap st !! a = Some n /\ handled n = false))
    /\ (forall e n, In e l -> heap st !! snd e = Some n -> handled n = false ->
        In (snd e) rem')
    /\ ((forall e n, In e l -> heap st !! snd e = Some n -> handled n = true) -> rem' = rem)
    /\ (forall a, In a rem -> In a rem').
Proof.
  induction l as [|e l IH]; intros st rem Hnd Hok.
  - exists st, rem. simpl. unfold ret, heap_only.
    repeat split; auto; try (now destruct st); try (intros ? ? []).
  - simpl in Hnd. apply List.NoDup_cons_iff in Hnd as [Hnotin Hnd].
    destruct (Hok e (or_introl eq_refl)) as (n & n' & Hn & Hfix).
    assert (Hnames : names (<[snd e := n']> (heap st)) = names (heap st)).
    { eapply names_insert; [exact Hn | eapply fixup_node_name; exact Hfix]. }
    set (st1 := with_heap (<[snd e := n']> (heap st)) st).
    set (rem1 := if handled n then rem else rem ++ [snd e]).
    assert (Hother : forall a, a <> snd e -> heap st1 !! a = heap st !! a).
    { intros a Ha. simpl. apply list_lookup_insert_ne. congruence. }
    destruct (IH st1 rem1 Hnd) as (st' & rem' & Hrun & Hho & Hnm & Hlen & Hout & Hin & Hrem & Hun & Hall & Hmono).
    { intros e' He'. destruct (Hok e' (or_intror He')) as (m & m' & Hm & Hfm).
      exists m, m'. split.
      - rewrite Hother; [exact Hm|]. intros Heq. apply Hnotin. rewrite <- Heq.
        now apply in_map.
      - simpl. rewrite (fixup_node_names _ _ (heap st) _ Hnames). exact Hfm. }
    exists st', rem'. simpl. unfold bind. rewrite fixup_entry_eq, Hn, Hfix.
    fold st1 rem1. rewrite Hrun.
    split; [reflexivity|].
    split. { unfold heap_only in *. rewrite Hho. now destruct st. }
    split. { now rewrite Hnm. }
    split. { rewrite Hlen. simpl. apply length_insert. }
    split. { intros a Ha. rewrite Hout by tauto. apply Hother. intros ->. tauto. }
    split.
    { intros e' m [<-|He'] Hm.
      - rewrite Hn in Hm. injection Hm as <-. exists n'. split; [exact Hfix|].
        rewrite Hout by exact Hnotin. simpl. apply list_lookup_insert_eq.
        now apply lookup_lt_Some in Hn.
      - assert (Hne : snd e' <> snd e).
        { intros Heq. apply Hnotin. rewrite <- Heq. now apply in_map. }
        destruct (Hin e' m He') as (m' & Hfm & Hm').
        { now rewrite Hother. }
        exists m'. split; [|exact Hm'].
        simpl in Hfm. now rewrite (fixup_node_names _ _ (heap st) _ Hnames) in Hfm. }
    split.
    { intros a Ha. destruct (Hrem a Ha) as [Hr1|(Hal & m & Hm & Hhm)].
      - subst rem1. destruct (handled n) eqn:Hh; [now left|].
        apply in_app_or in Hr1 as [Hr1|[<-|[]]]; [now left|].
        right. split; [now left | eauto].
      - right. split; [now right|]. exists m. split; [|exact Hhm].
        rewrite <- Hother; [exact Hm|]. intros ->. tauto. }
    split.
    { intros e' m [<-|He'] Hm Hhm.
      - rewrite Hn in Hm. injection Hm as <-. apply Hmono. subst rem1.
        rewrite Hhm. apply in_or_app. right. now left.
      - apply (Hun e' m He'); [|exact Hhm]. rewrite Hother; [exact Hm|].
        intros Heq. apply Hnotin. rewrite <- Heq. now apply in_map. }
    split.
    { intros Hh. rewrite Hall.
      - subst rem1. now rewrite (Hh e n (or_introl eq_refl) Hn).
      - intros e' m He' Hm. apply (Hh e' m (or_intror He')).
        rewrite <- Hother; [exact Hm|].
        intros Heq. apply Hnotin. rewrite <- Heq. now apply in_map. }
    intros a Ha. apply Hmono. subst rem1. destruct (handled n); [exact Ha|].
    apply in_or_app. now left.
Qed.

Lemma fixup_loop_fails l : forall st rem,
  List.NoDup (map snd l) ->
  (forall e, In e l -> exists n, heap st !! snd e = Some n) ->
  (exists e n err, In e l /\ heap st !! snd e = Some n
                   /\ fixup_node (all st) (heap st) n = Err err) ->
  exists e n err, In e l /\ heap st !! snd e = Some n
                  /\ fixup_node (all st) (heap st) n = Err err
                  /\ fixup_loop l rem st = Err err.
Proof.
  induction l as [|e l IH]; intros st rem Hnd Hheap Hbad.
  - destruct Hbad as (? & ? & ? & [] & _).
  - simpl in Hnd. apply List.NoDup_cons_iff in Hnd as [Hnotin Hnd].
    destruct (Hheap e (or_introl eq_refl)) as (n & Hn).
    destruct (fixup_node (all st) (heap st) n) as [n'|x] eqn:Hfix.
    + assert (Hnames : names (<[snd e := n']> (heap st)) = names (heap st)).
      { eapply names_insert; [exact Hn | eapply fixup_node_name; exact Hfix]. }
      set (st1 := with_heap (<[snd e := n']> (heap st)) st).
      set (rem1 := if handled n then rem else rem ++ [snd e]).
      assert (Hother : forall e', In e' l -> heap st1 !! snd e' = heap st !! snd e').
      { intros e' He'. simpl. apply list_lookup_insert_ne.
        intros Heq. apply Hnotin. rewrite Heq. now apply in_map. }
      destruct (IH st1 rem1 Hnd) as (e1 & n1 & err & He1 & Hn1 & Hf1 & Hrun).
      { intros e' He'. rewrite (Hother _ He'). apply Hheap. now right. }
      { destruct Hbad as (e0 & n0 & err & [<-|He0] & Hn0 & Hf0).
        - rewrite Hn in Hn0. injection Hn0 as <-. congruence.
        - exists e0, n0, err. split; [exact He0|]. rewrite (Hother _ He0).
          split; [exact Hn0|]. simpl.
          now rewrite (fixup_node_names _ _ (heap st) _ Hnames). }
      exists e1, n1, err. split; [now right|].
      rewrite (Hother _ He1) in Hn1. split; [exact Hn1|].
      simpl in Hf1. rewrite (fixup_node_names _ _ (heap st) _ Hnames) in Hf1.
      split; [exact Hf1|].
      simpl. unfold bind. rewrite fixup_entry_eq, Hn, Hfix. exact Hrun.
    + exists e, n, x. split; [now left|]. split; [exact Hn|]. split; [exact Hfix|].
      simpl. unfold bind. now rewrite fixup_entry_eq, Hn, Hfix.
Qed.

Lemma mapM_lookup_err reg rs e :
  mapM (lookup reg) rs = Err e ->
  exists r, In r rs /\ PyDict.get (key_of r) reg = None /\ e = KeyError (key_of r).
Proof.
  induction rs as [|r rs IH]; simpl; [discriminate|].
  unfold lookup at 1, PyDict.item.
  destruct (PyDict.get (key_of r) reg) as [a|] eqn:Hr; simpl.
  - destruct (mapM (lookup reg) rs) as [rs'|x]; simpl; [discriminate|].
    intros [= <-]. destruct (IH eq_refl) as (r0 & Hin & Hg & He).
    exists r0. auto.
  - intros [= <-]. exists r. auto.
Qed.

Lemma mapM_lookup_ok reg rs rs' :
  mapM (lookup reg) rs = Ok rs' ->
  forall i r, rs !! i = Some r ->
              exists a, PyDict.get (key_of r) reg = Some a /\ rs' !! i = Some (Ptr a).
Proof.
  revert rs'. induction rs as [|r0 rs IH]; intros rs'; simpl.
  - intros _ i r H. destruct i; discriminate.
  - unfold lookup at 1, PyDict.item.
    destruct (PyDict.get (key_of r0) reg) as [a|] eqn:Hr; simpl; [|discriminate].
    destruct (mapM (lookup reg) rs) as [rs1|x]; simpl; [|discriminate].
    intros [= <-] [|i] r; simpl.
    + intros [= <-]. eauto.
    + intros H. now apply IH.
Qed.

Lemma mapM_lookup_total reg rs :
  forallb (fun r => PyDict.mem (key_of r) reg) rs = true ->
  exists rs', mapM (lookup reg) rs = Ok rs'.
Proof.
  induction rs as [|r rs IH]; simpl; [eauto|].
  intros H. apply andb_prop in H as [Hr Hrs].
  destruct (IH Hrs) as (rs' & ->).
  unfold lookup, PyDict.item, PyDict.mem in *.
  destruct (PyDict.get (key_of r) reg); [|discriminate]. simpl. eauto.
Qed.

Lemma fixup_location_err reg h l e :
  location_shaped reg h l = true ->
  fixup_location reg h l = Err e ->
  exists fil, location_ref l = [Id fil]
              /\ PyDict.get (KStr fil) reg = None /\ e = KeyError (KStr fil).
Proof.
  destruct l as [|s|]; simpl; try discriminate.
  destruct (PyStr.split_on ":" s) as [|fil [|line [|]]]; try discriminate.
  unfold PyDict.item, read.
  destruct (PyDict.get (KStr fil) reg) as [f|] eqn:Hg; simpl.
  - destruct (h !! f) as [n|]; simpl; [|now rewrite andb_false_r].
    destruct (attr_name (data n)); [|now rewrite andb_false_r].
    destruct (PyStr.int line); simpl; discriminate.
  - intros _ [= <-]. eauto.
Qed.

Lemma fixup_location_total reg h l :
  location_shaped reg h l = true ->
  forallb (fun r => PyDict.mem (key_of r) reg) (location_ref l) = true ->
  is_ok (fixup_location reg h l) = true.
Proof.
  destruct l as [|s|]; simpl; try (reflexivity || discriminate).
  destruct (PyStr.split_on ":" s) as [|fil [|line [|]]]; try discriminate.
  unfold PyDict.item, read, PyDict.mem. simpl.
  destruct (PyDict.get (KStr fil) reg) as [f|]; simpl; [|discriminate].
  destruct (h !! f) as [n|]; simpl; [|now rewrite andb_false_r].
  destruct (attr_name (data n)); [|now rewrite andb_false_r].
  destruct (PyStr.int line); simpl; [reflexivity | discriminate].
Qed.

Lemma fixup_node_total reg h n :
  location_shaped reg h (location n) = true ->
  resolvable reg n = true ->
  exists n', fixup_node reg h n = Ok n'.
Proof.
  intros Hl Hr. unfold resolvable, all_refs in Hr. rewrite forallb_app in Hr.
  apply andb_prop in Hr as [Hloc Hrefs].
  pose proof (fixup_location_total _ _ _ Hl Hloc) as Hok.
  destruct (mapM_lookup_total _ _ Hrefs) as (rs' & Hrs).
  pose proof (fixup_node_cases reg h n) as C.
  destruct (fixup_node reg h n) as [n'|e]; [eauto|].
  destruct C as [C|[_ C]].
  - rewrite C in Hok. discriminate.
  - congruence.
Qed.

(** A raw node whose fixup fails: the exception is the [KeyError] of an
    id the node refers to and the registry has not. *)
Lemma fixup_node_err reg h n e :
  raw_node n = true ->
  location_shaped reg h (location n) = true ->
  fixup_node reg h n = Err e ->
  exists s, In (Id s) (all_refs n)
            /\ PyDict.get (KStr s) reg = None /\ e = KeyError (KStr s).
Proof.
  intros Hraw Hl Hfix. pose proof (fixup_node_cases reg h n) as C. rewrite Hfix in C.
  unfold all_refs. destruct C as [C|[_ C]].
  - destruct (fixup_location_err _ _ _ _ Hl C) as (fil & Hr & Hg & ->).
    exists fil. rewrite Hr. split; [now left | auto].
  - destruct (mapM_lookup_err _ _ _ C) as (r & Hin & Hg & ->).
    unfold raw_node in Hraw. apply andb_prop in Hraw as [Hids _].
    rewrite forallb_forall in Hids. specialize (Hids _ Hin).
    destruct r as [s|]; [|discriminate].
    exists s. split; [apply in_or_app; now right | auto].
Qed.

(** ** The fixup pass on a registry whose ids resolve (claim C1) *)

Lemma resolve_streamed (st : parser) :
  streamed st = true ->
  entries handled st = true ->
  entries (resolvable (all st)) st = true ->
  exists st',
    resolve st = Ok (tt, st')
    /\ heap_only st st'
    /\ length (heap st') = length (heap st)
    /\ (forall a, ~ In a (map snd (all st)) -> heap st' !! a = heap st !! a)
    /\ (forall k a n, In (k, a) (all st) -> heap st !! a = Some n ->
        exists n', fixup_node (all st) (heap st) n = Ok n' /\ heap st' !! a = Some n').
Proof.
  intros Hs Hh Hr. unfold streamed in Hs.
  apply andb_prop in Hs as [Hs Hloc]. apply andb_prop in Hs as [Hdis Hraw].
  destruct (fixup_loop_spec (PyDict.items (all st)) st [])
    as (st' & rem' & Hrun & Hho & _ & Hlen & Hout & Hin & _ & _ & Hall & _).
  { now apply items_NoDup. }
  { intros [k a] He. apply (proj1 (items_In _ _)) in He.
    destruct (entries_In _ _ _ _ Hloc He) as (n & Hn & Hl).
    destruct (entries_In _ _ _ _ Hr He) as (n1 & Hn1 & Hres).
    simpl. rewrite Hn in Hn1. injection Hn1 as <-.
    destruct (fixup_node_total _ _ _ Hl Hres) as (n' & Hn').
    eauto. }
  assert (Hrem : rem' = []).
  { apply Hall. intros [k a] n He Hn. apply (proj1 (items_In _ _)) in He.
    destruct (entries_In _ _ _ _ Hh He) as (n1 & Hn1 & Hhn).
    simpl in Hn. rewrite Hn in Hn1. now injection Hn1 as <-. }
  subst rem'. exists st'. unfold resolve, bind, gets. rewrite Hrun. simpl.
  split; [reflexivity|]. split; [exact Hho|]. split; [exact Hlen|].
  split.
  { intros a Ha. apply Hout. intros Hin'. apply Ha.
    eapply Permutation_in; [|exact Hin'].
    apply Permutation_map. apply items_perm. }
  intros k a n He Hn. apply (Hin (k, a) n); [now apply (proj2 (items_In _ _)) | exact Hn].
Qed.

Lemma fixup_node_PointerType reg h l k sz al a n' :
  PyDict.get (KStr k) reg = Some a ->
  fixup_node reg h (mkNode l (PointerType (Id k) sz al)) = Ok n' ->
  exists l', n' = mkNode l' (PointerType (Ptr a) sz al).
Proof.
  intros Hk. unfold fixup_node. cbn [location data].
  destruct (fixup_location reg h l) as [l'|]; [|discriminate].
  change (getattr ("_fixup_" +:+ class_name (PointerType (Id k) sz al)) fixup_methods)
    with (Some _fixup_PointerType).
  unfold rbind, _fixup_PointerType, lookup, PyDict.item. cbn [key_of]. rewrite Hk.
  intros [= <-]. eauto.
Qed.

Lemma fixup_node_Field reg h l name k ctx bits offset a n' :
  PyDict.get (KStr k) reg = Some a ->
  fixup_node reg h (mkNode l (Field name (Id k) ctx bits offset)) = Ok n' ->
  exists l' ctx', n' = mkNode l' (Field name (Ptr a) ctx' bits offset).
Proof.
  intros Hk. unfold fixup_node. cbn [location data].
  destruct (fixup_location reg h l) as [l'|]; [|discriminate].
  change (getattr ("_fixup_" +:+ class_name (Field name (Id k) ctx bits offset)) fixup_methods)
    with (Some _fixup_Field).
  unfold _fixup_Field, lookup at 1, PyDict.item. cbn [key_of]. rewrite Hk.
  cbn [rbind]. destruct (lookup reg ctx) as [c'|]; cbn [rbind]; [|discriminate].
  intros [= <-]. eauto.
Qed.

Lemma fixup_node_Struct reg h l name al members ctx bases sz n' :
  fixup_node reg h (mkNode l (Struct name al members ctx bases sz)) = Ok n' ->
  exists l' ms' ctx' bs',
    n' = mkNode l' (Struct name al ms' ctx' bs' sz)
    /\ mapM (lookup reg) members = Ok ms'.
Proof.
  unfold fixup_node. cbn [location data].
  destruct (fixup_location reg h l) as [l'|]; [|discriminate].
  change (getattr ("_fixup_" +:+ class_name (Struct name al members ctx bases sz)) fixup_methods)
    with (Some _fixup_Struct).
  unfold _fixup_Struct.
  destruct (mapM (lookup reg) members) as [ms'|]; cbn [rbind]; [|discriminate].
  destruct (mapM (lookup reg) bases) as [bs'|]; cbn [rbind]; [|discriminate].
  destruct (lookup reg ctx) as [c'|]; cbn [rbind]; [|discriminate].
  intros [= <-]. eauto 10.
Qed.

(** C1.  On a registry as the streaming pass leaves it, in which every
    class has a handler and every id resolves, the fixup pass returns.  It
    is one loop over the entries of the registry: the node of every entry
    ends as [fixup_node] makes it from the registry and the heap the pass
    started with, so no referenced node is descended into, whatever cycles
    the ids form.  And for a Struct with a member Field whose type is a
    PointerType carrying the id of the Struct: after the pass the type of
    the field is the pointer node, and the type of that is the Struct
    node itself, the same address. *)
Theorem fixup_pass_on_cycles (st : parser) :
  streamed st = true ->
  entries handled st = true ->
  entries (resolvable (all st)) st = true ->
  exists st',
    resolve st = Ok (tt, st')
    /\ all st' = all st
    /\ (forall k a n, In (k, a) (all st) -> heap st !! a = Some n ->
        exists n', fixup_node (all st) (heap st) n = Ok n' /\ heap st' !! a = Some n')
    /\ (forall ks kf kp s f p sl fl pl sname salign members sctx bases ssize
               fname fctx bits offset psize palign i,
        PyDict.get (KStr ks) (all st) = Some s ->
        heap st !! s = Some (mkNode sl (Struct sname salign members sctx bases ssize)) ->
        members !! i = Some (Id kf) ->
        PyDict.get (KStr kf) (all st) = Some f ->
        heap st !! f = Some (mkNode fl (Field fname (Id kp) fctx bits offset)) ->
        PyDict.get (KStr kp) (all st) = Some p ->
        heap st !! p = Some (mkNode pl (PointerType (Id ks) psize palign)) ->
        exists sl' members' sctx' bases' fl' fctx' pl',
          heap st' !! s = Some (mkNode sl' (Struct sname salign members' sctx' bases' ssize))
          /\ members' !! i = Some (Ptr f)
          /\ heap st' !! f = Some (mkNode fl' (Field fname (Ptr p) fctx' bits offset))
          /\ heap st' !! p = Some (mkNode pl' (PointerType (Ptr s) psize palign))).
Proof.
  intros Hs Hh Hr.
  destruct (resolve_streamed st Hs Hh Hr) as (st' & Hrun & Hho & _ & _ & Hin).
  exists st'. split; [exact Hrun|].
  split. { unfold heap_only in Hho. rewrite Hho. reflexivity. }
  split; [exact Hin|].
  intros ks kf kp s f p sl fl pl sname salign members sctx bases ssize
         fname fctx bits offset psize palign i Hks Hsn Hmem Hkf Hfn Hkp Hpn.
  destruct (Hin _ _ _ (get_In _ _ _ Hks) Hsn) as (s' & Hfs & Hs').
  destruct (Hin _ _ _ (get_In _ _ _ Hkf) Hfn) as (f' & Hff & Hf').
  destruct (Hin _ _ _ (get_In _ _ _ Hkp) Hpn) as (p' & Hfp & Hp').
  destruct (fixup_node_Struct _ _ _ _ _ _ _ _ _ _ Hfs) as (sl' & ms' & sctx' & bs' & -> & Hms).
  destruct (fixup_node_Field _ _ _ _ _ _ _ _ _ _ Hkp Hff) as (fl' & fctx' & ->).
  destruct (fixup_node_PointerType _ _ _ _ _ _ _ _ Hks Hfp) as (pl' & ->).
  destruct (mapM_lookup_ok _ _ _ Hms _ _ Hmem) as (a & Ha & Hi).
  cbn [key_of] in Ha. rewrite Hkf in Ha. injection Ha as <-.
  exists sl', ms', sctx', bs', fl', fctx', pl'. auto.
Qed.

Lemma fixup_pass_on_cycles_witness :
  let st := after_streaming cyclic_doc in
  exists st',
    resolve st = Ok (tt, st')
    /\ exists l l' c, heap st' !! 2%nat = Some (mkNode l (Field "next" (Ptr 3%nat) c None (Some "0")))
                      /\ heap st' !! 3%nat = Some (mkNode l' (PointerType (Ptr 1%nat) "64" "64")).
Proof.
  intros st.
  destruct (fixup_pass_on_cycles st) as (st' & Hrun & _ & _ & Hcyc);
    [vm_compute; reflexivity | vm_compute; reflexivity | vm_compute; reflexivity |].
  exists st'. split; [exact Hrun|].
  destruct (Hcyc "_1" "_2" "_3" 1%nat 2%nat 3%nat NoLocation NoLocation NoLocation
                 "S" "64" [Id "_2"] (Id "_0") [] (Some "64")
                 "next" (Id "_1") None (Some "0") "64" "64" 0%nat)
    as (sl' & ms' & sctx' & bs' & fl' & fctx' & pl' & _ & _ & Hf & Hp);
    try reflexivity.
  exists fl', pl', fctx'. split; assumption.
Defined.

(** ** A dangling reference (claim C2) *)

Lemma mapM_lookup_ok_In reg rs rs' r :
  mapM (lookup reg) rs = Ok rs' -> In r rs -> PyDict.get (key_of r) reg <> None.
Proof.
  intros H Hin. apply list_elem_of_In, list_elem_of_lookup in Hin as [i Hi].
  destruct (mapM_lookup_ok _ _ _ H _ _ Hi) as (a & Ha & _). congruence.
Qed.

Lemma fixup_node_ok_refs reg h n n' r :
  fixup_node reg h n = Ok n' -> In r (all_refs n) -> PyDict.get (key_of r) reg <> None.
Proof.
  intros Hfix Hin. pose proof (fixup_node_cases reg h n) as C. rewrite Hfix in C.
  destruct C as (Hl & Hrs & _). unfold all_refs in Hin.
  apply in_app_or in Hin as [Hin|Hin].
  - destruct (location n) as [|s|]; simpl in *; try contradiction.
    destruct (PyStr.split_on ":" s) as [|fil [|line [|]]]; simpl in *; try contradiction.
    destruct Hin as [<-|[]]. simpl. unfold PyDict.item in Hl.
    destruct (PyDict.get (KStr fil) reg); [discriminate | discriminate].
  - eapply mapM_lookup_ok_In; eassumption.
Qed.

(** C2, as the code has it.  On a registry as the streaming pass leaves
    it, in which some node refers to an id that is no key of the registry,
    the fixup pass raises the [KeyError] of the dict lookup.  Its argument
    is such a missing id, one that a registered node refers to; the
    exception carries nothing else, so it does not name the node. *)
Theorem dangling_reference_raises_KeyError (st : parser) :
  streamed st = true ->
  (exists k a n s, In (k, a) (all st) /\ heap st !! a = Some n
                   /\ In (Id s) (all_refs n) /\ PyDict.get (KStr s) (all st) = None) ->
  exists s k a n,
    resolve st = Err (KeyError (KStr s))
    /\ In (k, a) (all st) /\ heap st !! a = Some n
    /\ In (Id s) (all_refs n) /\ PyDict.get (KStr s) (all st) = None.
Proof.
  intros Hs (k & a & n & s & Hin & Hn & Hr & Hmiss). unfold streamed in Hs.
  apply andb_prop in Hs as [Hs Hloc]. apply andb_prop in Hs as [Hdis Hraw].
  destruct (fixup_loop_fails (PyDict.items (all st)) st [])
    as ([k1 a1] & n1 & err & He1 & Hn1 & Hf1 & Hrun).
  { now apply items_NoDup. }
  { intros [k' a'] He. apply (proj1 (items_In _ _)) in He.
    destruct (entries_In _ _ _ _ Hraw He) as (m & Hm & _). eauto. }
  { destruct (fixup_node (all st) (heap st) n) as [n'|err] eqn:Hfix.
    - exfalso. apply (fixup_node_ok_refs _ _ _ _ _ Hfix Hr). exact Hmiss.
    - exists (k, a), n, err. split; [now apply (proj2 (items_In _ _))|]. auto. }
  apply (proj1 (items_In _ _)) in He1. simpl in Hn1.
  destruct (entries_In _ _ _ _ Hraw He1) as (m & Hm & Hrawn).
  destruct (entries_In _ _ _ _ Hloc He1) as (m' & Hm' & Hshape).
  rewrite Hn1 in Hm, Hm'. injection Hm as <-. injection Hm' as <-.
  destruct (fixup_node_err _ _ _ _ Hrawn Hshape Hf1) as (s1 & Hs1 & Hg1 & ->).
  exists s1, k1, a1, n1. unfold resolve, bind, gets. rewrite Hrun. auto.
Qed.

Lemma dangling_reference_raises_KeyError_witness :
  exists s k a n,
    resolve (after_streaming dangling_doc) = Err (KeyError (KStr s))
    /\ In (k, a) (all (after_streaming dangling_doc))
    /\ heap (after_streaming dangling_doc) !! a = Some n
    /\ In (Id s) (all_refs n)
    /\ PyDict.get (KStr s) (all (after_streaming dangling_doc)) = None.
Proof.
  apply (dangling_reference_raises_KeyError (after_streaming dangling_doc)).
  - vm_compute. reflexivity.
  - exists (KStr "v1"), 1%nat, (mkNode NoLocation (Variable_ "x" (Id "t9") (Id "f1") None)), "t9".
    split; [vm_compute; auto|]. split; [reflexivity|].
    split; [vm_compute; auto | reflexivity].
Defined.

(** The claim as the specification words it fails on the document with a
    variable of undefined type: the exception of the fixup pass is a
    [KeyError], not a [MissingReferenceError]. *)
Lemma no_MissingReferenceError :
  ~ (exists e, resolve (after_streaming dangling_doc) = Err e
               /\ exn_class e = "MissingReferenceError").
Proof.
  intros (e & He & Hc). vm_compute in He. injection He as <-. discriminate Hc.
Qed.

(** ** A node without a fixup handler (claim C6) *)

Lemma forallb_false {A} (p : A -> bool) l :
  forallb p l = false -> exists x, In x l /\ p x = false.
Proof.
  induction l as [|x l IH]; simpl; [discriminate|].
  destruct (p x) eqn:Hx; simpl.
  - intros H. destruct (IH H) as (y & Hy & Hp). eauto.
  - eauto.
Qed.

(** C6 on the code.  When an entry of the registry holds a node whose
    class has no fixup handler, the pass does not return: an exception is
    raised.  If the loop over the entries itself goes through (the fixup of
    every node succeeds), the exception comes from the removal: the list
    [remove] holds the NODE, [del self.all[n]] looks the node up as a key,
    the keys are ids, and the [KeyError] carries that node. *)
Theorem unhandled_node_removal_raises (st : parser) :
  plain_keys (all st) = true ->
  distinct (map snd (all st)) = true ->
  entries (fun _ => true) st = true ->
  (exists k a n, In (k, a) (all st) /\ heap st !! a = Some n /\ handled n = false) ->
  exists e,
    resolve st = Err e
    /\ (entries (fun n => is_ok (fixup_node (all st) (heap st) n)) st = true ->
        exists k a n, In (k, a) (all st) /\ heap st !! a = Some n
                      /\ handled n = false /\ e = KeyError (KObj a)).
Proof.
  intros Hplain Hdis Hheap (k & a & n & Hin & Hn & Hun).
  destruct (entries (fun n => is_ok (fixup_node (all st) (heap st) n)) st) eqn:B.
  - destruct (fixup_loop_spec (PyDict.items (all st)) st [])
      as (st' & rem' & Hrun & Hho & _ & _ & _ & _ & Hrem & Hunh & _ & _).
    { now apply items_NoDup. }
    { intros [k' a'] He. apply (proj1 (items_In _ _)) in He.
      destruct (entries_In _ _ _ _ B He) as (m & Hm & Hok). simpl.
      destruct (fixup_node (all st) (heap st) m) as [m'|] eqn:Hf; [eauto | discriminate]. }
    assert (Ha : In a rem').
    { apply (Hunh (k, a) n); [now apply (proj2 (items_In _ _)) | exact Hn | exact Hun]. }
    destruct rem' as [|a0 rem']; [destruct Ha|].
    destruct (Hrem a0 (or_introl eq_refl)) as [[]|(Hal & m & Hm & Hum)].
    apply in_map_iff in Hal as ([k0 a1] & Heq & Hk0). simpl in Heq. subst a1.
    apply (proj1 (items_In _ _)) in Hk0.
    exists (KeyError (KObj a0)). split.
    + unfold resolve, bind, gets. rewrite Hrun. simpl. unfold bind, drop, PyDict.del, PyDict.mem.
      unfold heap_only in Hho. rewrite Hho. simpl.
      now rewrite (get_plain a0 (all st) Hplain).
    + intros _. exists k0, a0, m. auto.
  - unfold entries in B. apply forallb_false in B as ([k1 a1] & Hin1 & Hbad).
    destruct (entries_In _ _ _ _ Hheap Hin1) as (m & Hm & _).
    simpl in Hbad. rewrite Hm in Hbad.
    destruct (fixup_node (all st) (heap st) m) as [|err] eqn:Hf; [discriminate|].
    destruct (fixup_loop_fails (PyDict.items (all st)) st [])
      as (e1 & n1 & err1 & _ & _ & _ & Hrun).
    { now apply items_NoDup. }
    { intros [k' a'] He. apply (proj1 (items_In _ _)) in He.
      destruct (entries_In _ _ _ _ Hheap He) as (m' & Hm' & _). eauto. }
    { exists (k1, a1), m, err. split; [now apply (proj2 (items_In _ _))|]. auto. }
    exists err1. split; [|discriminate].
    unfold resolve, bind, gets. now rewrite Hrun.
Qed.

Lemma unhandled_node_removal_raises_witness :
  resolve (after_result alias_doc) = Err (KeyError (KObj 1%nat))
  /\ exists e, resolve (after_result alias_doc) = Err e.
Proof.
  split; [vm_compute; reflexivity|].
  destruct (unhandled_node_removal_raises (after_result alias_doc)) as (e & He & _).
  - vm_compute. reflexivity.
  - vm_compute. reflexivity.
  - vm_compute. reflexivity.
  - exists (KStr "A"), 1%nat, (mkNode NoLocation (Alias "A" "B" None)).
    split; [vm_compute; auto|]. split; reflexivity.
  - exists e. exact He.
Defined.

(** The failing input of C6: a parser that has returned the result for a
    document with one alias holds the Alias node in its registry, a class
    without fixup handler; a second [get_result] raises the [KeyError] of
    the removal. *)
Theorem second_get_result_raises :
  get_result (after_result alias_doc) = Err (KeyError (KObj 1%nat)).
Proof. vm_compute. reflexivity. Qed.

(** ** The access marker of a base (claim C3) *)

(** C3 on the code.  Only [visit_Class] removes the marker "protected:"
    from a base.  [visit_Struct] and [visit_Union] store the base as it is
    written, and the fixup pass then looks up the id with its marker: for
    the record D with base "protected:_1", declared as Struct or as Union,
    [parse] raises the [KeyError] of "protected:_1", where the same record
    declared as Class resolves its base to the node of B. *)
Theorem base_marker_kept_by_Struct_and_Union :
  visit_Struct derived_attrs init
    = creates (Struct "D" "32" [] (Id "_0") [Id "protected:_1"] None) init
  /\ visit_Union derived_attrs init
     = creates (Union "D" "32" [] (Id "_0") [Id "protected:_1"] None) init
  /\ visit_Class derived_attrs init
     = creates (Struct "D" "32" [] (Id "_0") [Id "_1"] None) init
  /\ gccxml_parser.parse (derived_doc "Struct") = Err (KeyError (KStr "protected:_1"))
  /\ gccxml_parser.parse (derived_doc "Union") = Err (KeyError (KStr "protected:_1"))
  /\ heap (after_result (derived_doc "Class")) !! 2%nat
     = Some (mkNode NoLocation (Struct "D" "32" [] (Ptr 0%nat) [Ptr 1%nat] None)).
Proof. repeat split; vm_compute; reflexivity. Qed.

(** ** An element without handler (claim C5) *)

Lemma has_subelements_handled name :
  str_in name has_subelements = true ->
  getattr ("visit_" +:+ name) visit_methods <> None.
Proof.
  unfold str_in, has_subelements. simpl existsb. intros H.
  repeat (apply orb_prop in H as [H|H];
          [apply String.eqb_eq in H; subst name; vm_compute; discriminate|]).
  discriminate.
Qed.

(** C5, as the code has it.  For an element whose kind has no handler,
    the start event prints one line and changes nothing else: no node is
    created, none is registered, the context is not pushed.  The end event
    succeeds as well and leaves heap, registry, context and output as they
    are.  So no placeholder is produced and the element adds no node. *)
Theorem unhandled_element_is_skipped (name : string) (a : attrs)
        (text : option string) (st : parser) :
  getattr ("visit_" +:+ name) visit_methods = None ->
  exists st2,
    start_element name a st = Ok (tt, with_stdout (stdout st ++ [diagnostic name]) st)
    /\ handle (End name text) (with_stdout (stdout st ++ [diagnostic name]) st) = Ok (tt, st2)
    /\ heap st2 = heap st /\ all st2 = all st /\ context st2 = context st
    /\ stdout st2 = stdout st ++ [diagnostic name].
Proof.
  intros Hn.
  assert (Hsub : str_in name has_subelements = false).
  { destruct (str_in name has_subelements) eqn:E; [|reflexivity].
    now apply has_subelements_handled in E. }
  unfold start_element. rewrite Hn, Hsub.
  unfold handle, end_element. rewrite Hsub.
  unfold bind, unhandled_element, modify, ret, bind, visit_Characters, diagnostic.
  destruct text as [[|c r]|]; simpl.
  - eexists. repeat split.
  - destruct (cdata st) as [nm|]; simpl.
    + destruct (PyDict.get (KStr nm) (cpp_data st)); simpl; eexists; repeat split.
    + eexists. repeat split.
  - eexists. repeat split.
Qed.

Lemma unhandled_element_is_skipped_witness :
  exists st2,
    start_element "Foo" (dict_of [("id", "_7")]) init
    = Ok (tt, with_stdout (stdout init ++ [diagnostic "Foo"]) init)
    /\ handle (End "Foo" None) (with_stdout (stdout init ++ [diagnostic "Foo"]) init)
       = Ok (tt, st2)
    /\ heap st2 = heap init /\ all st2 = all init /\ context st2 = context init
    /\ stdout st2 = stdout init ++ [diagnostic "Foo"].
Proof.
  apply (unhandled_element_is_skipped "Foo" (dict_of [("id", "_7")]) None init).
  vm_compute. reflexivity.
Defined.

(** The claim as worded fails on an element Foo: it has no handler, and
    handling it yields no node, neither as the handler's result nor in the
    heap or the registry. *)
Lemma unhandled_element_makes_no_placeholder :
  getattr ("visit_" +:+ "Foo") visit_methods = None
  /\ ~ (exists r st', unhandled_element "Foo" (dict_of [("id", "_7")]) init = Ok (Some r, st'))
  /\ heap (after_streaming (element "Foo" [("id", "_7")])) = []
  /\ all (after_streaming (element "Foo" [("id", "_7")])) = [].
Proof.
  split; [vm_compute; reflexivity|].
  split; [|split; vm_compute; reflexivity].
  intros (r & st' & H). vm_compute in H. discriminate H.
Qed.

(** ** A line that does not split (claim C8) *)

Lemma join_text_strings chunks : join_text (map CStr chunks) = Ok (PyStr.join chunks).
Proof.
  unfold join_text.
  assert (H : mapM (fun c => match c with CStr s => Ok s | CDict _ => Err TypeError end)
                   (map CStr chunks) = Ok chunks).
  { induction chunks as [|c l IH]; simpl; [reflexivity|]. now rewrite IH. }
  now rewrite H.
Qed.

Lemma macro_line_cases m st :
  if macro_shaped m
  then exists st', macro_line m st = Ok (tt, st')
  else macro_line m st = Err ValueError.
Proof.
  unfold macro_shaped, macro_line.
  destruct (PyStr.split1 m) as [|name [|body [|]]]; try reflexivity.
  destruct (PyStr.split_on1 "(" name) as [|nm [|args [|]]]; try reflexivity.
  eexists. reflexivity.
Qed.

Lemma macros_malformed lines : forall st,
  existsb (fun m => negb (macro_shaped m)) lines = true ->
  forM_ macro_line lines st = Err ValueError.
Proof.
  induction lines as [|m lines IH]; intros st; simpl; [discriminate|].
  pose proof (macro_line_cases m st) as C. unfold bind.
  destruct (macro_shaped m); simpl.
  - destruct C as (st' & ->). apply IH.
  - intros _. now rewrite C.
Qed.

Lemma aliases_malformed lines : forall st aliases,
  existsb (fun a => negb (alias_shaped a)) lines = true ->
  read_aliases lines aliases st = Err ValueError.
Proof.
  induction lines as [|a lines IH]; intros st aliases; simpl; [discriminate|].
  unfold alias_shaped at 1.
  destruct (PyStr.split1 a) as [|name [|value [|]]]; simpl; try reflexivity.
  intros H. unfold bind, new, register, modify. apply IH. exact H.
Qed.

(** C8, as the code has it.  A line of the macro section that does not
    split into a header with "(" and a body, or a line of the alias
    section that does not split into a name and a value, is not skipped:
    unpacking the split raises [ValueError], which ends the extraction
    (and [get_result] with it). *)
Theorem malformed_line_raises_ValueError (chunks : list string)
        (namespace : PyDict.dict nat) (st : parser) :
  (existsb (fun m => negb (macro_shaped m)) (PyStr.splitlines (PyStr.join chunks)) = true ->
   get_macros (Some (map CStr chunks)) st = Err ValueError)
  /\ (existsb (fun a => negb (alias_shaped a)) (PyStr.splitlines (PyStr.join chunks)) = true ->
      get_aliases (Some (map CStr chunks)) namespace st = Err ValueError).
Proof.
  split; intros H.
  - unfold get_macros, bind, lift. rewrite join_text_strings.
    now apply macros_malformed.
  - unfold get_aliases, bind, lift. rewrite join_text_strings.
    now rewrite aliases_malformed.
Qed.

Lemma malformed_line_raises_ValueError_witness :
  get_macros (Some (map CStr [text_of ["FOO(a,b) ((a)+(b))"; "BAR 1"; "BAZ(x) x"]])) init
  = Err ValueError
  /\ get_aliases (Some (map CStr [text_of ["A B"; "C"; "D E"]])) [] init = Err ValueError.
Proof.
  split.
  - apply (proj1 (malformed_line_raises_ValueError
                    [text_of ["FOO(a,b) ((a)+(b))"; "BAR 1"; "BAZ(x) x"]] [] init)).
    vm_compute. reflexivity.
  - apply (proj2 (malformed_line_raises_ValueError [text_of ["A B"; "C"; "D E"]] [] init)).
    vm_compute. reflexivity.
Defined.

(** The claim as worded fails: with a one-token line between two good
    lines, neither extractor returns, so the line is not skipped and the
    line after it is not read. *)
Lemma malformed_line_is_not_skipped :
  ~ (exists st', get_macros (Some [CStr (text_of ["FOO(a) a"; "BAR"; "BAZ(x) x"])]) init
                 = Ok (tt, st'))
  /\ ~ (exists st', get_aliases (Some [CStr (text_of ["A B"; "C"; "D E"])]) [] init
                    = Ok (tt, st')).
Proof.
  split; intros (st' & H); vm_compute in H; discriminate H.
Qed.

(** * Further properties of the parser *)

(** ** Names *)

Lemma replace_char o new s :
  PyStr.replace (String o EmptyString) new s
  = match s with
    | EmptyString => EmptyString
    | String c r =>
        (if Ascii.eqb c o then new else String c EmptyString)
        +:+ PyStr.replace (String o EmptyString) new r
    end.
Proof.
  unfold PyStr.replace. destruct s as [|c r]; [reflexivity|].
  cbn [PyStr.replace_from String.prefix String.length Nat.pred].
  destruct (ascii_dec o c) as [->|Hne].
  - rewrite Ascii.eqb_refl. now destruct r.
  - destruct (Ascii.eqb_spec c o) as [->|_]; [congruence | reflexivity].
Qed.

Lemma replace_char_chars (p : ascii -> bool) o new s :
  forall_chars p new = true ->
  forall_chars (fun c => Ascii.eqb c o || p c) s = true ->
  forall_chars p (PyStr.replace (String o EmptyString) new s) = true.
Proof.
  intros Hnew. induction s as [|c r IH]; [reflexivity|].
  rewrite replace_char. cbn [forall_chars]. intros H.
  apply andb_prop in H as [Hc Hr]. rewrite forall_chars_app, (IH Hr), andb_true_r.
  destruct (Ascii.eqb c o); [exact Hnew|]. simpl in *. now rewrite Hc.
Qed.

Lemma replace_char_nonempty o new s :
  new <> EmptyString -> s <> EmptyString ->
  PyStr.replace (String o EmptyString) new s <> EmptyString.
Proof.
  intros Hnew Hs. destruct s as [|c r]; [congruence|].
  rewrite replace_char. destruct (Ascii.eqb c o).
  - destruct new; [congruence | discriminate].
  - discriminate.
Qed.

Lemma digit_string_mem c : PyStr.mem c "01234567879" = PyStr.is_digit c.
Proof. destruct c as [[] [] [] [] [] [] [] []]; reflexivity. Qed.

(** X1.  [MAKE_NAME] fails on the empty name only, with the [IndexError]
    of [name[0]].  The name it returns has no "$" and no "." left, does
    not begin with two underscores and does not begin with a digit. *)
Theorem MAKE_NAME_result (name : string) :
  (name = EmptyString -> MAKE_NAME name = Err IndexError)
  /\ (name <> EmptyString ->
      exists c r, MAKE_NAME name = Ok (String c r)
                  /\ forall_chars (fun x => negb (mangling_char x)) (String c r) = true
                  /\ PyStr.startswith "__" (String c r) = false
                  /\ PyStr.is_digit c = false).
Proof.
  split; [intros ->; reflexivity|]. intros Hne. unfold MAKE_NAME.
  set (n1 := PyStr.replace "$" "DOLLAR" name).
  set (n2 := PyStr.replace "." "DOT" n1).
  assert (H1 : forall_chars (fun x => negb (Ascii.eqb x "$")) n1 = true).
  { apply replace_char_chars; [reflexivity|].
    clear. induction name as [|c r IH]; [reflexivity|]. simpl. rewrite IH.
    now destruct (Ascii.eqb c "$"). }
  assert (H2 : forall_chars (fun x => negb (mangling_char x)) n2 = true).
  { apply replace_char_chars; [reflexivity|].
    eapply forall_chars_impl; [|exact H1]. intros c Hc. unfold mangling_char.
    destruct (Ascii.eqb c "."); [reflexivity|]. simpl. now rewrite orb_false_r. }
  assert (Hn2 : n2 <> EmptyString).
  { apply replace_char_nonempty; [discriminate|].
    apply replace_char_nonempty; [discriminate | exact Hne]. }
  destruct (PyStr.startswith "__" n2) eqn:Hs.
  - exists "_"%char, ("X" +:+ n2).
    split; [reflexivity|]. split; [exact H2|]. split; reflexivity.
  - destruct n2 as [|c r] eqn:E; [congruence|].
    rewrite digit_string_mem. destruct (PyStr.is_digit c) eqn:Hd.
    + exists "_"%char, (String c r).
      split; [reflexivity|]. split; [exact H2|]. split; [|reflexivity].
      clear - Hd. destruct c as [[] [] [] [] [] [] [] []];
        try discriminate Hd; reflexivity.
    + exists c, r. auto.
Qed.

Lemma MAKE_NAME_result_witness :
  exists c r, MAKE_NAME "__a$b.9" = Ok (String c r)
              /\ forall_chars (fun x => negb (mangling_char x)) (String c r) = true
              /\ PyStr.startswith "__" (String c r) = false
              /\ PyStr.is_digit c = false.
Proof. apply (proj2 (MAKE_NAME_result "__a$b.9")). discriminate. Defined.

Lemma word_tail_spec s :
  word_tail s = true
  <-> exists w, forall_chars word_char w = true /\ (s = w \/ s = w +:+ newline).
Proof.
  split.
  - induction s as [|c r IH]; simpl.
    + intros _. exists EmptyString. auto.
    + fold (word_char c). destruct (word_char c) eqn:Hc.
      * intros H. destruct (IH H) as (w & Hw & [->| ->]);
          exists (String c w); simpl; rewrite Hc, Hw; auto.
      * intros H. apply andb_prop in H as [H1 H2].
        apply Ascii.eqb_eq in H1 as ->. destruct r; [|discriminate].
        exists EmptyString. auto.
  - intros (w & Hw & Hs). revert s Hs. induction w as [|c w IH]; intros s Hs.
    + destruct Hs as [->| ->]; reflexivity.
    + simpl in Hw. apply andb_prop in Hw as [Hc Hw].
      destruct Hs as [->| ->]; simpl; fold (word_char c); rewrite Hc;
        apply IH; auto.
Qed.

(** X2.  [CHECK_NAME] returns the name when it is an identifier, or an
    identifier followed by one newline, and [None] in every other case;
    so [visit_Enumeration] gives an enumeration its name in the first case
    and makes it anonymous in the second. *)
Theorem CHECK_NAME_accepts (name : string) :
  (matches_WORDPAT name -> CHECK_NAME name = Some name)
  /\ (~ matches_WORDPAT name -> CHECK_NAME name = None)
  /\ (forall (a : attrs) (st : parser) size align,
         attr_get "name" a = Some name ->
         attr_get "size" a = Some size ->
         attr_get "align" a = Some align ->
         visit_Enumeration a st
         = creates (Enumeration (CHECK_NAME name) size align []) st).
Proof.
  assert (Hiff : WORDPAT_match name = true <-> matches_WORDPAT name).
  { unfold WORDPAT_match, matches_WORDPAT. destruct name as [|c r].
    - split; [discriminate|]. intros (w & Hw & [<-|H]); [discriminate|].
      destruct w; discriminate.
    - split.
      + intros H. apply andb_prop in H as [Hc Hr].
        apply word_tail_spec in Hr as (w & Hw & Hs).
        exists (String c w). simpl. rewrite Hc, Hw.
        split; [reflexivity|]. destruct Hs as [->| ->]; auto.
      + intros (w & Hw & Hs). destruct w as [|d w]; [discriminate|].
        simpl in Hw. apply andb_prop in Hw as [Hd Hw].
        assert (c = d /\ (r = w \/ r = w +:+ newline)) as [-> Hr].
        { destruct Hs as [[= -> ->]|[= -> ->]]; auto. }
        rewrite Hd. apply word_tail_spec. eauto. }
  unfold CHECK_NAME. split; [|split].
  - intros H. apply Hiff in H. now rewrite H.
  - intros H. destruct (WORDPAT_match name) eqn:E; [|reflexivity].
    exfalso. apply H. now apply Hiff.
  - intros a st size align Hn Hs Ha. unfold visit_Enumeration, bind.
    rewrite (attr_found _ _ _ _ Hn), (attr_found _ _ _ _ Hs), (attr_found _ _ _ _ Ha).
    reflexivity.
Qed.

Lemma CHECK_NAME_accepts_witness :
  CHECK_NAME ("color_t" +:+ newline) = Some ("color_t" +:+ newline)
  /\ CHECK_NAME "._12" = None.
Proof.
  split.
  - apply (proj1 (CHECK_NAME_accepts ("color_t" +:+ newline))).
    exists "color_t". split; [reflexivity | now right].
  - apply (proj1 (proj2 (CHECK_NAME_accepts "._12"))).
    intros (w & Hw & [<-|H]); [discriminate Hw|].
    destruct w as [|c w]; [discriminate Hw|].
    injection H as <- H. discriminate Hw.
Defined.

(** ** The revision of gccxml *)

(** X3.  [get_result] compares the revision the GCC_XML element gave with
    (1, 114).  A revision of two components below it adds a warning and
    the result is computed; a revision at or above it adds none.  But a
    revision below (1, 114) that has not exactly two components makes the
    warning's format "%d.%d" fail: [get_result] raises [TypeError]. *)
Theorem revision_check (st : parser) (r : list Z) :
  cvs_revision st = Some r ->
  (forall major minor, r = [major; minor] ->
     check_revision st
     = Ok (tt, if Z.ltb major 1 || (Z.eqb major 1 && Z.ltb minor 114)
               then with_warnings (warnings st ++ [OldRevision major minor]) st
               else st))
  /\ (tuple_lt r [1; 114] = false -> check_revision st = Ok (tt, st))
  /\ (tuple_lt r [1; 114] = true -> length r <> 2%nat -> get_result st = Err TypeError).
Proof.
  intros Hr. split; [|split].
  - intros major minor ->. unfold check_revision, bind, gets. rewrite Hr.
    cbn [tuple_lt].
    destruct (Z.ltb_spec major 1), (Z.ltb_spec 1 major), (Z.eqb_spec major 1),
      (Z.ltb_spec minor 114), (Z.ltb_spec 114 minor); simpl; try reflexivity; lia.
  - intros Hlt. unfold check_revision, bind, gets. now rewrite Hr, Hlt.
  - intros Hlt Hlen. unfold get_result, bind at 1, check_revision, bind, gets.
    rewrite Hr, Hlt.
    destruct r as [|x [|y [|z r]]]; try reflexivity. now contradiction Hlen.
Qed.

Lemma revision_check_witness :
  get_result (after_streaming (element "GCC_XML" [("cvs_revision", "1")])) = Err TypeError
  /\ get_result (after_streaming (element "GCC_XML" [("cvs_revision", "1.113.2")]))
     = Err TypeError
  /\ check_revision (after_streaming (element "GCC_XML" [("cvs_revision", "1.113")]))
     = Ok (tt, with_warnings [OldRevision 1 113]
                 (after_streaming (element "GCC_XML" [("cvs_revision", "1.113")]))).
Proof.
  split; [|split].
  - apply (proj2 (proj2 (revision_check
             (after_streaming (element "GCC_XML" [("cvs_revision", "1")])) [1] eq_refl)));
      [reflexivity | discriminate].
  - apply (proj2 (proj2 (revision_check
             (after_streaming (element "GCC_XML" [("cvs_revision", "1.113.2")]))
             [1; 113; 2] eq_refl)));
      [reflexivity | discriminate].
  - apply (proj1 (revision_check
             (after_streaming (element "GCC_XML" [("cvs_revision", "1.113")]))
             [1; 113] eq_refl) 1 113 eq_refl).
Defined.

(** ** The invariant of the streaming pass *)

Lemma getattr_In {A} name (m : A) methods :
  getattr name methods = Some m -> In (name, m) methods.
Proof.
  induction methods as [|[n x] l IH]; simpl; [discriminate|].
  destruct (String.eqb_spec name n) as [->|_].
  - intros [= ->]. now left.
  - intros H. right. now apply IH.
Qed.

Lemma ids_raw l : forallb is_id (map Id l) = true.
Proof. induction l; simpl; auto. Qed.

Lemma forallb_lookup {A} (p : A -> bool) (l : list A) i x :
  forallb p l = true -> l !! i = Some x -> p x = true.
Proof.
  revert i. induction l as [|y l IH]; intros [|i]; simpl; try discriminate.
  - intros H [= ->]. now apply andb_prop in H as [H _].
  - intros H. apply andb_prop in H as [_ H]. now apply IH.
Qed.

Lemma forallb_insert {A} (p : A -> bool) (l : list A) i x :
  forallb p l = true -> p x = true -> forallb p (<[i := x]> l) = true.
Proof.
  revert i. induction l as [|y l IH]; intros [|i]; simpl; auto.
  - intros H Hx. apply andb_prop in H as [_ H]. now rewrite Hx.
  - intros H Hx. apply andb_prop in H as [Hy H]. now rewrite Hy, IH.
Qed.

Lemma forallb_snoc {A} (p : A -> bool) (l : list A) x :
  forallb p l = true -> p x = true -> forallb p (l ++ [x]) = true.
Proof. intros Hl Hx. rewrite forallb_app, Hl. simpl. now rewrite Hx. Qed.

Lemma arguments_raw (args : list Argument) t nm :
  forallb is_id (map arg_typ args) = true ->
  forallb is_id (map arg_typ (args ++ [mkArgument (Id t) nm])) = true.
Proof. intros H. rewrite map_app, forallb_app, H. reflexivity. Qed.

Lemma add_argument_sound n t nm d :
  sound_node n = true ->
  add_argument (mkArgument (Id t) nm) (data n) = Ok d ->
  sound_node (mkNode (location n) d) = true.
Proof.
  destruct n as [l d0]. unfold sound_node, raw_node, handled. cbn [location data].
  destruct d0; simpl add_argument; try discriminate; intros H [= <-];
    apply andb_prop in H as [H Hh]; apply andb_prop in H as [Hr Hl];
    rewrite Hl, andb_true_r; cbn [refs forallb] in *;
    repeat match goal with
           | H : _ && _ = true |- _ => apply andb_prop in H as [? H]
           end;
    repeat (apply andb_true_intro; split); auto using arguments_raw.
Qed.

Lemma add_value_sound n v d :
  sound_node n = true ->
  add_value v (data n) = Ok d ->
  sound_node (mkNode (location n) d) = true.
Proof.
  destruct n as [l d0]. unfold sound_node, raw_node, handled. cbn [location data].
  destruct d0; simpl add_value; try discriminate. intros H [= <-]. exact H.
Qed.

Ltac handler_steps H :=
  repeat match type of H with
         | context [match PyDict.get ?k ?d with _ => _ end] =>
             destruct (PyDict.get k d) eqn:?
         | context [match MAKE_NAME ?m with _ => _ end] => destruct (MAKE_NAME m) eqn:?
         | context [match mapM ?f ?l with _ => _ end] => destruct (mapM f l) eqn:?
         | context [match PyStr.int ?s with _ => _ end] => destruct (PyStr.int s) eqn:?
         | context [if String.eqb ?x ?y then _ else _] => destruct (String.eqb x y) eqn:?
         | context [match cdata ?s with _ => _ end] => destruct (cdata s) eqn:?
         | context [match last ?c with _ => _ end] => destruct (last c) as [[?|]|] eqn:?
         | context [match heap ?s !! ?p with _ => _ end] => destruct (heap s !! p) eqn:?
         | context [match add_argument ?x ?y with _ => _ end] =>
             destruct (add_argument x y) eqn:?
         | context [match add_value ?x ?y with _ => _ end] =>
             destruct (add_value x y) eqn:?
         end; try discriminate H.

Ltac eval_fixup_method :=
  match goal with
  | |- context [getattr ?n fixup_methods] =>
      let v := eval cbv [getattr fixup_methods String.append class_name
                         String.eqb Ascii.eqb Bool.eqb] in (getattr n fixup_methods) in
      change (getattr n fixup_methods) with v
  end.

Ltac sound_tac :=
  unfold sound_node, raw_node, handled; cbn [location data refs class_name];
  eval_fixup_method; rewrite ?forallb_app, ?ids_raw; reflexivity.

Lemma sound_new st d :
  forallb sound_node (heap st) = true ->
  sound_node (mkNode NoLocation d) = true ->
  handler_post st (Some (length (heap st)))
               (with_heap (heap st ++ [mkNode NoLocation d]) st).
Proof.
  intros Hh Hd. unfold handler_post. simpl.
  repeat split; [now apply forallb_snoc | rewrite length_app; simpl; lia].
Qed.

Lemma visit_methods_post name mth (a : attrs) st r st' :
  getattr name visit_methods = Some mth ->
  forallb sound_node (heap st) = true ->
  mth a st = Ok (r, st') ->
  handler_post st r st'.
Proof.
  intros Hm Hh H. apply getattr_In in Hm. unfold visit_methods in Hm.
  simpl in Hm.
  repeat (destruct Hm as [Hm|Hm]; [injection Hm as _ <-|]); try contradiction.
  all: unfold visit_Ignored, visit_Ellipsis, visit_GCC_XML, visit_Characters,
      visit_CPP_DUMP, visit_Namespace, visit_File, visit_Variable, visit_Typedef,
      visit_FundamentalType, visit_ReferenceType, visit_PointerType, visit_ArrayType,
      visit_CvQualifiedType, visit_Function, visit_FunctionType,
      visit_OperatorFunction, visit_Argument, visit_Enumeration, visit_EnumValue,
      visit_Struct, visit_Class, visit_Union, visit_Field, record_name, context_top,
      attr_or_empty, attr_get,
      bind, attr, lift, PyDict.item, new, ret, modify, load, store, read in H.
  all: handler_steps H.
  all: try (injection H as <- <-).
  all: try (apply sound_new; [exact Hh | sound_tac]).
  all: try (unfold handler_post; simpl; auto; fail).
  - unfold lift, modify in H. cbn [data location] in H.
    destruct (add_argument _ (data n0)) as [d|] eqn:Hd; [|discriminate H].
    injection H as <- <-. unfold handler_post. simpl.
    repeat split; [|apply length_insert].
    apply forallb_insert; [exact Hh|].
    eapply add_argument_sound; [|exact Hd].
    eapply forallb_lookup; eassumption.
  - unfold lift, modify in H. cbn [data location] in H.
    destruct (add_value _ (data n0)) as [d|] eqn:Hd; [|discriminate H].
    injection H as <- <-. unfold handler_post. simpl.
    repeat split; [|apply length_insert].
    apply forallb_insert; [exact Hh|].
    eapply add_value_sound; [|exact Hd].
    eapply forallb_lookup; eassumption.
Qed.

Lemma set_In {V} k (v : V) d k' v' :
  In (k', v') (PyDict.set k v d) -> (k' = k /\ v' = v) \/ In (k', v') d.
Proof.
  induction d as [|[k0 v0] d IH]; simpl.
  - intros [[= <- <-]|[]]. now left.
  - destruct (PyDict.key_eqb k k0) eqn:E; simpl.
    + apply key_eqb_eq in E as <-. intros [[= <- <-]|H]; auto.
    + intros [H|H]; [auto|]. destruct (IH H); auto.
Qed.

Lemma set_fresh_NoDup k (v : nat) (d : PyDict.dict nat) :
  List.NoDup (map snd d) -> ~ In v (map snd d) ->
  List.NoDup (map snd (PyDict.set k v d)).
Proof.
  induction d as [|[k0 v0] d IH]; simpl; intros Hnd Hv.
  - constructor; [tauto | constructor].
  - apply List.NoDup_cons_iff in Hnd as [Hv0 Hnd].
    destruct (PyDict.key_eqb k k0); simpl.
    + constructor; [tauto | exact Hnd].
    + constructor; [|apply IH; tauto].
      intros Hin. apply in_map_iff in Hin as ([k1 v1] & Heq & Hin). simpl in Heq. subst v1.
      apply set_In in Hin as [[_ ->]|Hin]; [tauto|].
      apply Hv0. apply in_map_iff. exists (k1, v0). auto.
Qed.

Lemma sound_located h r n l :
  forallb sound_node h = true -> h !! r = Some n ->
  forallb sound_node (<[r := mkNode (RawLocation l) (data n)]> h) = true.
Proof.
  intros Hh Hn. apply forallb_insert; [exact Hh|].
  pose proof (forallb_lookup _ _ _ _ Hh Hn) as Hs.
  unfold sound_node, raw_node, handled in *. cbn [location data].
  apply andb_prop in Hs as [Hs Hd]. apply andb_prop in Hs as [Hr _].
  now rewrite Hr, Hd.
Qed.

Lemma start_element_inv name (a : attrs) st st' :
  stream_inv st -> start_element name a st = Ok (tt, st') -> stream_inv st'.
Proof.
  intros (Hnd & Hreg & Hh & Hctx) H. unfold start_element, bind in H.
  set (mth := getattr ("visit_" +:+ name) visit_methods) in H.
  assert (Hpost : forall r st1,
             match mth with
             | Some m => m a
             | None => unhandled_element name a
             end st = Ok (r, st1) -> handler_post st r st1).
  { intros r st1 Hrun. destruct mth as [m|] eqn:Hm.
    - eapply visit_methods_post; eassumption.
    - unfold unhandled_element, bind, modify, ret in Hrun. injection Hrun as <- <-.
      unfold handler_post. simpl. auto. }
  destruct (match mth with Some m => m a | None => unhandled_element name a end st)
    as [[r st1]|] eqn:Hrun; [|discriminate H].
  destruct (Hpost r st1 eq_refl) as (Hall & Hcx & Hh1 & Hr). clear Hpost.
  match type of H with
  | match ?X with _ => _ end = _ => destruct X as [[[] st2]|] eqn:Hmid; [|discriminate H]
  end.
  assert (Inv2 : List.NoDup (map snd (all st2))
                 /\ (forall k x, In (k, x) (all st2) ->
                       (x < length (heap st2))%nat
                       /\ match k with KObj _ => False | _ => True end)
                 /\ forallb sound_node (heap st2) = true
                 /\ context st2 = context st
                 /\ (length (heap st) <= length (heap st2))%nat
                 /\ (forall r0, r = Some r0 -> (r0 < length (heap st2))%nat)).
  { destruct r as [r0|].
    - destruct Hr as [-> Hlen].
      assert (Hfresh : ~ In (length (heap st)) (map snd (all st))).
      { intros Hin. apply in_map_iff in Hin as ([k x] & Heq & Hin). simpl in Heq.
        subst x. apply Hreg in Hin as [Hlt _]. lia. }
      assert (Hreg' : forall (k0 : key) (h2 : list node),
                 length h2 = S (length (heap st)) ->
                 match k0 with KObj _ => False | _ => True end ->
                 forall k x, In (k, x) (PyDict.set k0 (length (heap st)) (all st)) ->
                             (x < length h2)%nat
                             /\ match k with KObj _ => False | _ => True end).
      { intros k0 h2 Hl2 Hkey k x Hin. apply set_In in Hin as [[-> ->]|Hin].
        - split; [lia | exact Hkey].
        - apply Hreg in Hin as [Hlt Hk]. split; [lia | exact Hk]. }
      destruct (attr_get "location" a) as [l|].
      + unfold load, lift, read, store, modify in Hmid.
        destruct (heap st1 !! length (heap st)) as [n|] eqn:Hn; [|discriminate Hmid].
        destruct (attr_get "id" a); injection Hmid as <-; simpl; rewrite Hall;
          (split; [now apply set_fresh_NoDup|]);
          (split; [apply Hreg'; [rewrite length_insert; exact Hlen | exact I]|]);
          (split; [eapply sound_located; eassumption|]);
          (split; [exact Hcx|]);
          (split; [rewrite length_insert; lia|]);
          intros r0 [= <-]; rewrite length_insert; lia.
      + unfold ret, modify in Hmid.
        destruct (attr_get "id" a); injection Hmid as <-; simpl; rewrite Hall;
          (split; [now apply set_fresh_NoDup|]);
          (split; [apply Hreg'; [exact Hlen | exact I]|]);
          (split; [exact Hh1|]);
          (split; [exact Hcx|]);
          (split; [lia|]);
          intros r0 [= <-]; lia.
    - unfold ret in Hmid. injection Hmid as <-. rewrite Hall, Hcx, Hr.
      split; [exact Hnd|]. split; [exact Hreg|]. split; [exact Hh1|].
      split; [reflexivity|]. split; [lia | discriminate]. }
  destruct Inv2 as (Hnd2 & Hreg2 & Hh2 & Hcx2 & Hlen2 & Hr2).
  unfold stream_inv. destruct (str_in name has_subelements).
  - unfold modify in H. injection H as <-. simpl.
    split; [exact Hnd2|]. split; [exact Hreg2|]. split; [exact Hh2|].
    intros p Hp. rewrite Hcx2 in Hp. apply in_app_or in Hp as [Hp|[Hp|[]]].
    + apply Hctx in Hp. lia.
    + apply Hr2. exact Hp.
  - unfold ret in H. injection H as <-.
    split; [exact Hnd2|]. split; [exact Hreg2|]. split; [exact Hh2|].
    intros p Hp. rewrite Hcx2 in Hp. apply Hctx in Hp. lia.
Qed.

Lemma In_removelast {A} (x : A) l : In x (removelast l) -> In x l.
Proof.
  induction l as [|y l IH]; simpl; [tauto|].
  destruct l as [|z l]; [tauto|]. intros [H|H]; [now left | right; now apply IH].
Qed.

Lemma handle_inv ev st st' :
  stream_inv st -> handle ev st = Ok (tt, st') -> stream_inv st'.
Proof.
  intros Hinv H. destruct ev as [tag items|tag text]; simpl in H.
  - eapply start_element_inv; eassumption.
  - destruct Hinv as (Hnd & Hreg & Hh & Hctx).
    unfold bind in H.
    assert (Hchar : forall c st1, visit_Characters c st = Ok (tt, st1) ->
                                  all st1 = all st /\ heap st1 = heap st
                                  /\ context st1 = context st).
    { intros c st1 Hc. unfold visit_Characters in Hc.
      destruct (cdata st); [destruct (PyDict.get _ (cpp_data st))|];
        injection Hc as <-; auto. }
    assert (Hmid : exists st1, all st1 = all st /\ heap st1 = heap st
                               /\ context st1 = context st
                               /\ end_element tag st1 = Ok (tt, st')).
    { destruct text as [[|c r]|].
      - exists st. unfold ret in H. auto.
      - destruct (visit_Characters (CStr (String c r)) st) as [[[] st1]|] eqn:Hc;
          [|discriminate H].
        exists st1. destruct (Hchar _ _ Hc) as (? & ? & ?). auto.
      - exists st. unfold ret in H. auto. }
    destruct Hmid as (st1 & Ha1 & Hh1 & Hc1 & Hend).
    unfold end_element, bind, modify, ret in Hend.
    unfold stream_inv. destruct (str_in tag has_subelements).
    + destruct (context st1) as [|c0 cs] eqn:Hcs; [discriminate Hend|].
      injection Hend as <-. simpl. rewrite Ha1, Hh1.
      split; [exact Hnd|]. split; [exact Hreg|]. split; [exact Hh|].
      intros p Hp. apply Hctx. rewrite <- Hc1. now apply In_removelast.
    + injection Hend as <-. simpl. rewrite Ha1, Hh1, Hc1. auto.
Qed.

Lemma parse_inv xmlfile : forall st st',
  stream_inv st -> GCCXMLParser.parse xmlfile st = Ok (tt, st') -> stream_inv st'.
Proof.
  unfold GCCXMLParser.parse.
  induction xmlfile as [|ev l IH]; intros st st' Hinv H; simpl in H.
  - unfold ret in H. now injection H as <-.
  - unfold bind in H. destruct (handle ev st) as [[[] st1]|] eqn:Hev; [|discriminate H].
    eapply IH; [|exact H]. eapply handle_inv; eassumption.
Qed.

Lemma init_inv : stream_inv init.
Proof.
  unfold stream_inv. simpl.
  split; [apply List.NoDup_nil|]. split; [intros ? ? []|]. split; [reflexivity|].
  intros ? [].
Qed.

Lemma NoDup_distinct l : List.NoDup l -> distinct l = true.
Proof.
  induction 1 as [|a l Ha Hl IH]; simpl; [reflexivity|].
  rewrite IH, andb_true_r. apply negb_true_iff.
  destruct (existsb (Nat.eqb a) l) eqn:E; [|reflexivity].
  apply existsb_exists in E as (x & Hx & Heq). apply Nat.eqb_eq in Heq. now subst x.
Qed.

Lemma inv_sound (st : parser) :
  stream_inv st ->
  distinct (map snd (all st)) = true
  /\ plain_keys (all st) = true
  /\ entries raw_node st = true
  /\ entries handled st = true
  /\ forallb sound_node (heap st) = true.
Proof.
  intros (Hnd & Hreg & Hh & _).
  assert (Hent : forall p, (forall n, sound_node n = true -> p n = true) ->
                           entries p st = true).
  { intros p Hp. unfold entries. apply forallb_forall. intros [k a] Hin. simpl.
    destruct (Hreg _ _ Hin) as [Hlt _].
    apply lookup_lt_is_Some in Hlt as [n Hn]. rewrite Hn. apply Hp.
    eapply forallb_lookup; eassumption. }
  split; [now apply NoDup_distinct|].
  split.
  { unfold plain_keys. apply forallb_forall. intros [k a] Hin.
    destruct (Hreg _ _ Hin) as [_ Hk]. now destruct k. }
  split.
  { apply Hent. unfold sound_node. intros n Hn. now apply andb_prop in Hn as [? _]. }
  split.
  { apply Hent. unfold sound_node. intros n Hn. now apply andb_prop in Hn as [_ ?]. }
  exact Hh.
Qed.

(** X4.  Whatever the document, a streaming pass that succeeds leaves a
    registry in which different keys hold different objects, no key is an
    object, and every node, registered or not, is raw (its reference
    fields hold id strings, its location is unresolved) and of a class
    with a fixup handler.  So after one streaming pass the fixup loop of
    [get_result] finds a handler for every registered node. *)
Theorem streaming_pass_invariant (xmlfile : list event) (st : parser) :
  GCCXMLParser.parse xmlfile init = Ok (tt, st) ->
  distinct (map snd (all st)) = true
  /\ plain_keys (all st) = true
  /\ entries raw_node st = true
  /\ entries handled st = true
  /\ forallb sound_node (heap st) = true.
Proof.
  intros H. apply inv_sound.
  eapply parse_inv; [apply init_inv | exact H].
Qed.

Lemma streaming_pass_invariant_witness :
  distinct (map snd (all (after_streaming cyclic_doc))) = true
  /\ plain_keys (all (after_streaming cyclic_doc)) = true
  /\ entries raw_node (after_streaming cyclic_doc) = true
  /\ entries handled (after_streaming cyclic_doc) = true
  /\ forallb sound_node (heap (after_streaming cyclic_doc)) = true.
Proof.
  apply (streaming_pass_invariant cyclic_doc (after_streaming cyclic_doc)).
  vm_compute. reflexivity.
Defined.

(** ** The graph after the fixup pass *)

Lemma mapM_length {A B} (f : A -> result B) l l' :
  mapM f l = Ok l' -> length l' = length l.
Proof.
  revert l'. induction l as [|x l IH]; intros l'; simpl.
  - now intros [= <-].
  - destruct (f x); simpl; [|discriminate].
    destruct (mapM f l) as [l1|]; simpl; [|discriminate].
    intros [= <-]. simpl. f_equal. now apply IH.
Qed.

(** X5.  For a document whose streaming pass succeeds, whose ids all
    resolve and whose locations read "file-id:line": the fixup pass
    returns, the registry is unchanged, and every registered node keeps
    its class and the number and order of its reference fields, the field
    that held the id [s] now holding the node registered under [s].  No id
    string is left in a reference field. *)
Theorem document_references_resolved (xmlfile : list event) (st : parser) :
  GCCXMLParser.parse xmlfile init = Ok (tt, st) ->
  entries (resolvable (all st)) st = true ->
  entries (fun n => location_shaped (all st) (heap st) (location n)) st = true ->
  exists st',
    resolve st = Ok (tt, st')
    /\ all st' = all st
    /\ forall k a n, In (k, a) (all st) -> heap st !! a = Some n ->
       exists n', heap st' !! a = Some n'
                  /\ class_name (data n') = class_name (data n)
                  /\ length (refs (data n')) = length (refs (data n))
                  /\ forallb (fun r => negb (is_id r)) (refs (data n')) = true
                  /\ forall i s, refs (data n) !! i = Some (Id s) ->
                                 exists t, PyDict.get (KStr s) (all st) = Some t
                                           /\ refs (data n') !! i = Some (Ptr t).
Proof.
  intros Hp Hres Hloc.
  destruct (inv_sound st (parse_inv _ _ _ init_inv Hp)) as (Hdis & _ & Hraw & Hh & _).
  destruct (resolve_streamed st) as (st' & Hrun & Hho & _ & _ & Hin).
  { unfold streamed. now rewrite Hdis, Hraw, Hloc. }
  { exact Hh. }
  { exact Hres. }
  exists st'. split; [exact Hrun|].
  split. { unfold heap_only in Hho. now rewrite Hho. }
  intros k a n Hka Hn. destruct (Hin k a n Hka Hn) as (n' & Hfix & Hn').
  exists n'. split; [exact Hn'|].
  pose proof (fixup_node_cases (all st) (heap st) n) as C. rewrite Hfix in C.
  destruct C as (_ & Hrs & Hc & _).
  split; [exact Hc|]. split; [eapply mapM_length; exact Hrs|].
  split.
  - apply forallb_forall. intros r Hr.
    apply list_elem_of_In, list_elem_of_lookup in Hr as [i Hi].
    assert (Hlt : (i < length (refs (data n)))%nat).
    { rewrite <- (mapM_length _ _ _ Hrs). eapply lookup_lt_Some. exact Hi. }
    apply lookup_lt_is_Some in Hlt as [r0 Hr0].
    destruct (mapM_lookup_ok _ _ _ Hrs _ _ Hr0) as (t & _ & Ht).
    rewrite Hi in Ht. now injection Ht as ->.
  - intros i s Hi. destruct (mapM_lookup_ok _ _ _ Hrs _ _ Hi) as (t & Ht & Hi').
    exists t. auto.
Qed.

Lemma document_references_resolved_witness :
  exists st',
    resolve (after_streaming cyclic_doc) = Ok (tt, st')
    /\ all st' = all (after_streaming cyclic_doc)
    /\ exists n', heap st' !! 1%nat = Some n'
                  /\ refs (data n') !! 0%nat = Some (Ptr 2%nat).
Proof.
  destruct (document_references_resolved cyclic_doc (after_streaming cyclic_doc))
    as (st' & Hrun & Hall & Hnodes);
    [vm_compute; reflexivity | vm_compute; reflexivity | vm_compute; reflexivity |].
  exists st'. split; [exact Hrun|]. split; [exact Hall|].
  destruct (Hnodes (KStr "_1") 1%nat
              (mkNode NoLocation (Struct "S" "64" [Id "_2"] (Id "_0") [] (Some "64"))))
    as (n' & Hn' & _ & _ & _ & Hrefs);
    [vm_compute; auto | reflexivity |].
  exists n'. split; [exact Hn'|].
  destruct (Hrefs 0%nat "_2" eq_refl) as (t & Ht & Hi).
  vm_compute in Ht. injection Ht as <-. exact Hi.
Defined.

(** ** Children in document order *)

Lemma forM_app {A} (f : A -> M unit) l1 l2 st :
  forM_ f (l1 ++ l2) st
  = match forM_ f l1 st with
    | Ok (_, st1) => forM_ f l2 st1
    | Err e => Err e
    end.
Proof.
  revert st. induction l1 as [|x l1 IH]; intros st; simpl; [reflexivity|].
  unfold bind. destruct (f x st) as [[[] st1]|]; [apply IH | reflexivity].
Qed.

Lemma argument_attrs a :
  attr_get "type" (dict_of (argument_items a)) = Some (fst a)
  /\ attr_get "name" (dict_of (argument_items a)) = snd a.
Proof. destruct a as [t [n|]]; split; reflexivity. Qed.

Ltac eval_visit_method :=
  match goal with
  | |- context [getattr ?n visit_methods] =>
      let v := eval cbv [getattr visit_methods String.append
                         String.eqb Ascii.eqb Bool.eqb] in (getattr n visit_methods) in
      change (getattr n visit_methods) with v
  end.

Lemma argument_element st items f n t d :
  last (context st) = Some (Some f) ->
  heap st !! f = Some n ->
  attr_get "type" (dict_of items) = Some t ->
  add_argument (mkArgument (Id t) (attr_get "name" (dict_of items))) (data n) = Ok d ->
  forM_ handle (element "Argument" items) st
  = Ok (tt, with_cdata None (with_heap (<[f := mkNode (location n) d]> (heap st)) st)).
Proof.
  intros Hc Hf Ht Hd. unfold element. cbn [forM_ handle].
  unfold bind at 1. unfold start_element. eval_visit_method.
  unfold bind at 1. unfold visit_Argument. unfold bind at 1.
  unfold context_top. rewrite Hc. unfold bind at 1.
  rewrite (attr_found _ _ _ _ Ht). unfold bind at 1. unfold load, lift, read.
  rewrite Hf. unfold bind at 1. rewrite Hd. unfold bind at 1.
  unfold store, modify, ret.
  change (str_in "Argument" has_subelements) with false. cbv iota.
  unfold bind at 1. unfold bind at 1. unfold end_element.
  change (str_in "Argument" has_subelements) with false. cbv iota.
  unfold bind, modify, ret. reflexivity.
Qed.

Lemma arguments_appended args : forall st f ctx l name r c at_ e acc,
  context st = ctx ++ [Some f] ->
  heap st !! f = Some (mkNode l (Function name r c at_ e acc)) ->
  exists st',
    GCCXMLParser.parse (argument_events args) st = Ok (tt, st')
    /\ context st' = context st /\ all st' = all st
    /\ length (heap st') = length (heap st)
    /\ (forall x, x <> f -> heap st' !! x = heap st !! x)
    /\ heap st' !! f
       = Some (mkNode l (Function name r c at_ e
                            (acc ++ map (fun a => mkArgument (Id (fst a)) (snd a)) args))).
Proof.
  unfold GCCXMLParser.parse.
  induction args as [|a args IH]; intros st f ctx l name r c at_ e acc Hctx Hf.
  - exists st. simpl. rewrite app_nil_r. unfold ret. repeat split; auto.
  - destruct (argument_attrs a) as [Ht Hn].
    assert (Hlast : last (context st) = Some (Some f)).
    { rewrite Hctx. apply last_snoc. }
    pose proof (argument_element st (argument_items a) f _ _ _ Hlast Hf Ht eq_refl) as Hel.
    cbn [data location add_argument] in Hel. rewrite Hn in Hel.
    set (st1 := with_cdata None _) in Hel.
    destruct (IH st1 f ctx l name r c at_ e (acc ++ [mkArgument (Id (fst a)) (snd a)]))
      as (st' & Hrun & Hc' & Ha' & Hl' & Ho' & Hf').
    { exact Hctx. }
    { simpl. apply list_lookup_insert_eq. now apply lookup_lt_Some in Hf. }
    exists st'. unfold argument_events in *. cbn [flat_map].
    rewrite forM_app, Hel, Hrun.
    split; [reflexivity|]. split; [exact Hc'|]. split; [exact Ha'|].
    split; [rewrite Hl'; simpl; apply length_insert|].
    split.
    + intros x Hx. rewrite (Ho' x Hx). simpl. now apply list_lookup_insert_ne.
    + rewrite Hf'. cbn [map]. now rewrite <- app_assoc.
Qed.

Lemma start_Function st (a : attrs) name returns ctx :
  attr_get "name" a = Some name ->
  attr_get "returns" a = Some returns ->
  attr_get "context" a = Some ctx ->
  exists st1 l,
    start_element "Function" a st = Ok (tt, st1)
    /\ context st1 = context st ++ [Some (length (heap st))]
    /\ length (heap st1) = S (length (heap st))
    /\ (forall x, (x < length (heap st))%nat -> heap st1 !! x = heap st !! x)
    /\ heap st1 !! length (heap st)
       = Some (mkNode l (Function name (Id returns) (Id ctx)
                            (PyStr.split (attr_or_empty "attributes" a))
                            (attr_get "extern" a) [])).
Proof.
  intros Hn Hr Hc. unfold start_element. eval_visit_method.
  unfold bind at 1. unfold visit_Function, bind.
  rewrite (attr_found _ _ _ _ Hn), (attr_found _ _ _ _ Hr), (attr_found _ _ _ _ Hc).
  unfold new, ret. cbn [heap with_heap].
  change (str_in "Function" has_subelements) with true. cbv iota.
  unfold load, lift, read, store, modify. cbn [heap with_heap].
  destruct (attr_get "location" a) as [loc|], (attr_get "id" a) as [i|];
    cbn [heap with_heap]; rewrite ?list_lookup_middle by reflexivity;
    cbn [data location heap with_heap with_all context with_context all];
    eexists _, _; (split; [reflexivity|]);
    cbn [heap with_heap with_all context with_context];
    (split; [reflexivity|]);
    rewrite ?length_insert, ?length_app; cbn [length];
    (split; [lia|]); split;
    try (intros x Hx; rewrite ?list_lookup_insert_ne by lia; now apply lookup_app_l);
    rewrite ?list_lookup_insert_eq by (rewrite length_app; cbn [length]; lia);
    rewrite ?list_lookup_middle by reflexivity; reflexivity.
Qed.

(** X6.  The Argument elements nested in a Function element are appended
    to the function as they come: after the events of the element, the
    node of the function (the next free address) carries the arguments in
    document order, with their type ids and optional names; the context
    stack is as before and no other object has changed. *)
Theorem function_arguments_in_order (st : parser) (items : list (string * string))
        (args : list (string * option string)) (name returns ctx : string) :
  attr_get "name" (dict_of items) = Some name ->
  attr_get "returns" (dict_of items) = Some returns ->
  attr_get "context" (dict_of items) = Some ctx ->
  exists st' l,
    GCCXMLParser.parse (Start "Function" items :: argument_events args
                          ++ [End "Function" None]) st = Ok (tt, st')
    /\ context st' = context st
    /\ (forall x, (x < length (heap st))%nat -> heap st' !! x = heap st !! x)
    /\ heap st' !! length (heap st)
       = Some (mkNode l (Function name (Id returns) (Id ctx)
                            (PyStr.split (attr_or_empty "attributes" (dict_of items)))
                            (attr_get "extern" (dict_of items))
                            (map (fun a => mkArgument (Id (fst a)) (snd a)) args))).
Proof.
  intros Hn Hr Hc.
  destruct (start_Function st _ _ _ _ Hn Hr Hc) as (st1 & l & Hs & Hc1 & Hl1 & Ho1 & Hf1).
  destruct (arguments_appended args st1 _ _ _ _ _ _ _ _ [] Hc1 Hf1)
    as (st2 & Hrun & Hc2 & _ & Hl2 & Ho2 & Hf2).
  exists (with_cdata None (with_context (context st) st2)), l.
  split.
  - unfold GCCXMLParser.parse in *. cbn [forM_ handle]. unfold bind at 1. rewrite Hs.
    rewrite forM_app, Hrun. cbn [forM_ handle]. unfold end_element.
    change (str_in "Function" has_subelements) with true. cbv iota.
    unfold bind, ret, modify. rewrite Hc2, Hc1.
    destruct (context st ++ [Some (length (heap st))]) as [|c0 cs] eqn:E.
    + now destruct (context st).
    + rewrite <- E, removelast_last. reflexivity.
  - split; [reflexivity|]. cbn [heap with_cdata with_context]. split.
    + intros x Hx. rewrite Ho2 by lia. now apply Ho1.
    + exact Hf2.
Qed.

Lemma function_arguments_in_order_witness :
  exists st' l,
    GCCXMLParser.parse
      (Start "Function" [("id", "_5"); ("name", "f"); ("returns", "_1"); ("context", "_0")]
         :: argument_events [("_1", Some "a"); ("_2", None); ("_1", Some "b")]
         ++ [End "Function" None]) init = Ok (tt, st')
    /\ context st' = context init
    /\ (forall x, (x < length (heap init))%nat -> heap st' !! x = heap init !! x)
    /\ heap st' !! length (heap init)
       = Some (mkNode l (Function "f" (Id "_1") (Id "_0") [] None
                            [mkArgument (Id "_1") (Some "a"); mkArgument (Id "_2") None;
                             mkArgument (Id "_1") (Some "b")])).
Proof.
  apply (function_arguments_in_order init
           [("id", "_5"); ("name", "f"); ("returns", "_1"); ("context", "_0")]
           [("_1", Some "a"); ("_2", None); ("_1", Some "b")] "f" "_1" "_0");
    reflexivity.
Defined.

(** ** Required attributes *)

(** X7.  For the element kinds of [required_attributes], the handler
    raises the [KeyError] of the first required attribute that the element
    lacks, and when none is missing it creates one node, of the class of
    the kind (of class PointerType for a ReferenceType). *)
Theorem missing_attribute_raises_KeyError (tag : string) (keys : list string)
        (mth : attrs -> M (option addr)) (a : attrs) (st : parser) :
  getattr tag required_attributes = Some keys ->
  getattr ("visit_" +:+ tag) visit_methods = Some mth ->
  match first_missing keys a with
  | Some k => mth a st = Err (KeyError (KStr k))
  | None => exists d, mth a st = creates d st /\ class_name d = node_class_of tag
  end.
Proof.
  intros Hk Hm. apply getattr_In in Hk. unfold required_attributes in Hk. simpl in Hk.
  repeat (destruct Hk as [Hk|Hk]; [injection Hk as <- <-|]); try contradiction;
    revert Hm; eval_visit_method; intros [= <-];
    unfold first_missing, PyDict.mem; cbn [find];
    unfold visit_Namespace, visit_File, visit_Variable, visit_Typedef,
      visit_ReferenceType, visit_PointerType, visit_CvQualifiedType, visit_Function,
      visit_FunctionType, visit_OperatorFunction, visit_Enumeration, visit_Field,
      bind, attr, lift, PyDict.item, new, ret, creates;
    repeat match goal with
           | |- context [PyDict.get ?k a] => destruct (PyDict.get k a); cbn [negb]
           end;
    try reflexivity; eexists; split; reflexivity.
Qed.

Lemma missing_attribute_raises_KeyError_witness :
  visit_Variable (dict_of [("id", "v1"); ("name", "x"); ("context", "f1")]) init
  = Err (KeyError (KStr "type"))
  /\ exists d, visit_ReferenceType (dict_of [("type", "_1"); ("size", "64"); ("align", "64")]) init
               = creates d init /\ class_name d = "PointerType".
Proof.
  split.
  - apply (missing_attribute_raises_KeyError
             "Variable" ["name"; "type"; "context"] visit_Variable
             (dict_of [("id", "v1"); ("name", "x"); ("context", "f1")]) init);
      reflexivity.
  - apply (missing_attribute_raises_KeyError
             "ReferenceType" ["type"; "size"; "align"] visit_ReferenceType
             (dict_of [("type", "_1"); ("size", "64"); ("align", "64")]) init);
      reflexivity.
Defined.

(** ** The result of [get_result] *)

Lemma interesting_class d :
  interesting d = true <-> In (class_name d) interesting_classes.
Proof.
  unfold interesting_classes. destruct d; simpl; split; intros H; try reflexivity;
    try discriminate; auto 10;
    repeat (destruct H as [H|H]; [discriminate H|]); contradiction.
Qed.

Lemma collect_spec h nodes : forall acc ns res ns',
  collect h nodes acc ns = Ok (res, ns') ->
  res = acc ++ List.filter (fun a => match h !! a with
                                     | Some n => interesting (data n)
                                     | None => false
                                     end) nodes.
Proof.
  induction nodes as [|a nodes IH]; intros acc ns res ns'; simpl.
  - intros [= <- _]. now rewrite app_nil_r.
  - unfold read. destruct (h !! a) as [n|]; simpl; [|discriminate].
    destruct (interesting (data n)).
    + intros H. apply IH in H. rewrite H, <- app_assoc. reflexivity.
    + apply IH.
Qed.

(** X8.  When [get_result] returns, its result is made of the nodes that
    the registry holds after the macros are registered and the fixup pass
    is done, and of those only: a node is in the result exactly when some
    key of that registry holds it and its class is one of Typedef, Struct,
    Enumeration, Union, Function, Variable, Namespace, File.  Nodes of the
    other classes (operator functions, function types, fields, the type
    nodes, macros, ignored elements) and the aliases, which are registered
    afterwards, are never returned. *)
Theorem get_result_lists_interesting (st : parser) (res : list nat) (st' : parser) :
  get_result st = Ok (res, st') ->
  exists st0 st1 st2,
    check_revision st = Ok (tt, st0)
    /\ get_macros (PyDict.get (KStr "functions") (cpp_data st0)) st0 = Ok (tt, st1)
    /\ resolve st1 = Ok (tt, st2)
    /\ (forall a, In a res <->
                  exists k n, In (k, a) (all st2) /\ heap st2 !! a = Some n
                              /\ In (class_name (data n)) interesting_classes)
    /\ (List.NoDup (map snd (all st2)) -> List.NoDup res).
Proof.
  intros H. unfold get_result in H. unfold bind at 1 in H.
  destruct (check_revision st) as [[[] st0]|] eqn:H0; [|discriminate H].
  unfold bind at 1, gets at 1 in H. unfold bind at 1 in H.
  destruct (get_macros _ st0) as [[[] st1]|] eqn:H1; [|discriminate H].
  unfold bind at 1 in H.
  destruct (resolve st1) as [[[] st2]|] eqn:H2; [|discriminate H].
  unfold bind at 1, gets at 1 in H. unfold bind at 1, gets at 1 in H.
  unfold bind at 1, lift in H.
  destruct (collect (heap st2) (PyDict.values (all st2)) [] []) as [[r ns]|] eqn:Hc;
    [|discriminate H].
  unfold bind at 1, gets at 1 in H. unfold bind at 1 in H. cbn [fst snd] in H.
  destruct (get_aliases _ ns st2) as [[[] st3]|]; [|discriminate H].
  unfold ret in H. injection H as <- _.
  apply collect_spec in Hc. simpl in Hc. subst r.
  exists st0, st1, st2. split; [reflexivity|]. split; [exact H1|].
  split; [exact H2|].
  assert (Hperm : Permutation (PyDict.values (all st2)) (map snd (all st2))).
  { unfold PyDict.values. apply Permutation_map. apply items_perm. }
  split.
  - intros a. rewrite filter_In. split.
    + intros [Hin Hk]. apply (Permutation_in _ Hperm) in Hin.
      apply in_map_iff in Hin as ([k a'] & Heq & Hin). simpl in Heq. subst a'.
      destruct (heap st2 !! a) as [n|]; [|discriminate Hk].
      exists k, n. split; [exact Hin|]. split; [reflexivity|].
      now apply interesting_class.
    + intros (k & n & Hin & Hn & Hcl). split.
      * apply (Permutation_in _ (Permutation_sym Hperm)).
        apply in_map_iff. exists (k, a). auto.
      * rewrite Hn. now apply interesting_class.
  - intros Hnd. apply List.NoDup_filter.
    eapply Permutation_NoDup; [apply Permutation_sym, Hperm | exact Hnd].
Qed.

Lemma get_result_lists_interesting_witness :
  exists res st' st0 st1 st2,
    get_result (after_streaming cyclic_doc) = Ok (res, st')
    /\ check_revision (after_streaming cyclic_doc) = Ok (tt, st0)
    /\ get_macros (PyDict.get (KStr "functions") (cpp_data st0)) st0 = Ok (tt, st1)
    /\ resolve st1 = Ok (tt, st2)
    /\ (forall a, In a res <->
                  exists k n, In (k, a) (all st2) /\ heap st2 !! a = Some n
                              /\ In (class_name (data n)) interesting_classes).
Proof.
  destruct (get_result (after_streaming cyclic_doc)) as [[res st']|] eqn:H;
    [|vm_compute in H; discriminate H].
  destruct (get_result_lists_interesting _ _ _ H) as (st0 & st1 & st2 & A & B & C & D & _).
  exists res, st', st0, st1, st2. auto.
Defined.

(** ** Aliases *)

Lemma set_In_other {V} k (v : V) d k' v' :
  List.NoDup (map fst d) ->
  In (k', v') (PyDict.set k v d) -> (k' = k /\ v' = v) \/ (k' <> k /\ In (k', v') d).
Proof.
  induction d as [|[k0 v0] d IH]; simpl; intros Hnd.
  - intros [[= <- <-]|[]]. now left.
  - apply List.NoDup_cons_iff in Hnd as [Hk0 Hnd].
    destruct (PyDict.key_eqb k k0) eqn:E; simpl.
    + apply key_eqb_eq in E as <-. intros [[= <- <-]|H]; [now left|].
      right. split; [|now right]. intros ->. apply Hk0.
      apply in_map_iff. exists (k, v'). auto.
    + intros [[= <- <-]|H].
      * right. split; [|now left]. intros ->. now rewrite key_eqb_refl in E.
      * destruct (IH Hnd H) as [?|[? ?]]; auto.
Qed.

Lemma set_keys_NoDup {V} k (v : V) d :
  List.NoDup (map fst d) -> List.NoDup (map fst (PyDict.set k v d)).
Proof.
  induction d as [|[k0 v0] d IH]; simpl; intros Hnd.
  - constructor; [tauto | constructor].
  - apply List.NoDup_cons_iff in Hnd as [Hk0 Hnd].
    destruct (PyDict.key_eqb k k0) eqn:E; simpl.
    + now constructor.
    + constructor; [|now apply IH].
      intros Hin. apply in_map_iff in Hin as ([k1 v1] & Heq & Hin). simpl in Heq. subst k1.
      apply set_In in Hin as [[-> _]|Hin].
      * now rewrite key_eqb_refl in E.
      * apply Hk0. apply in_map_iff. exists (k0, v1). auto.
Qed.

Lemma get_set_not_None {V} k k' (v : V) d :
  PyDict.get k' d <> None -> PyDict.get k' (PyDict.set k v d) <> None.
Proof.
  intros H. destruct (PyDict.key_eqb k k') eqn:E.
  - apply key_eqb_eq in E as ->. now rewrite get_set_same.
  - rewrite get_set_other; [exact H|]. intros ->. now rewrite key_eqb_refl in E.
Qed.

Lemma read_aliases_spec lines : forall st aliases st1 aliases1 h0,
  aliases_inv h0 aliases st ->
  read_aliases lines aliases st = Ok (aliases1, st1) ->
  aliases_inv h0 aliases1 st1
  /\ (length (heap st) <= length (heap st1))%nat
  /\ (forall x, (x < length (heap st))%nat -> heap st1 !! x = heap st !! x)
  /\ (forall k, PyDict.get k aliases <> None -> PyDict.get k aliases1 <> None)
  /\ (forall line name value, In line lines -> PyStr.split1 line = [name; value] ->
        PyDict.get (KStr name) aliases1 <> None)
  /\ (forall k a, In (k, a) aliases1 ->
        In (k, a) aliases
        \/ exists line name value, In line lines /\ PyStr.split1 line = [name; value]
                                   /\ k = KStr name
                                   /\ heap st1 !! a = Some (mkNode NoLocation (Alias name value None))).
Proof.
  induction lines as [|line lines IH]; intros st aliases st1 aliases1 h0 Hinv H; simpl in H.
  - unfold ret in H. injection H as <- <-.
    split; [exact Hinv|]. split; [lia|]. split; [auto|]. split; [auto|].
    split; [intros ? ? ? []|]. auto.
  - destruct (PyStr.split1 line) as [|name [|value [|]]] eqn:Hs; try discriminate H.
    unfold bind, new, register, modify in H. cbn [heap with_heap all with_all] in H.
    set (a0 := length (heap st)) in *.
    set (st0 := with_all _ _) in H.
    assert (Hh0 : heap st0 = heap st ++ [mkNode NoLocation (Alias name value None)])
      by reflexivity.
    assert (Ha0 : all st0 = PyDict.set (KStr name) a0 (all st)) by reflexivity.
    clearbody st0.
    assert (Hinv0 : aliases_inv h0 (PyDict.set (KStr name) a0 aliases) st0).
    { destruct Hinv as (Hlo & Hk & Hv & He).
      unfold aliases_inv. rewrite Hh0, Ha0, length_app. cbn [length].
      split; [lia|]. split; [now apply set_keys_NoDup|]. split.
      - apply set_fresh_NoDup; [exact Hv|]. intros Hin.
        apply in_map_iff in Hin as ([k x] & Heq & Hin). simpl in Heq. subst x.
        apply He in Hin as [Hlt _]. unfold a0 in Hlt. lia.
      - intros k a Hin. apply set_In_other in Hin as [[-> ->]|[Hne Hin]]; [| |exact Hk].
        + split; [unfold a0; lia|].
          exists name, value. split; [reflexivity|]. split.
          * now apply list_lookup_middle.
          * apply get_set_same.
        + destruct (He _ _ Hin) as (Hr & nm & vl & -> & Hn & Hg).
          split; [lia|]. exists nm, vl. split; [reflexivity|]. split.
          * rewrite lookup_app_l; [exact Hn | lia].
          * rewrite get_set_other; [exact Hg | congruence]. }
    destruct (IH _ _ _ _ _ Hinv0 H) as (Hinv1 & Hlen & Hold & Hkeep & Hnew & Horig).
    rewrite Hh0, length_app in Hlen. cbn [length] in Hlen.
    split; [exact Hinv1|]. split; [unfold a0 in *; lia|].
    split.
    { intros x Hx. rewrite Hold by (rewrite Hh0, length_app; cbn [length]; lia).
      rewrite Hh0. now apply lookup_app_l. }
    split.
    { intros k Hk. apply Hkeep. now apply get_set_not_None. }
    split.
    { intros l nm vl [<-|Hin] Hl.
      - rewrite Hs in Hl. injection Hl as <- <-. apply Hkeep. now rewrite get_set_same.
      - eapply Hnew; eassumption. }
    intros k a Hin. destruct (Horig k a Hin) as [Hin0|(l & nm & vl & Hl & Hsl & -> & Hn)].
    + destruct Hinv as (_ & Hk & _).
      apply set_In_other in Hin0 as [[-> ->]|[_ Hin0]]; [| now left | exact Hk].
      right. exists line, name, value. split; [now left|]. split; [exact Hs|].
      split; [reflexivity|].
      rewrite Hold by (rewrite Hh0, length_app; cbn [length]; unfold a0; lia).
      rewrite Hh0. now apply list_lookup_middle.
    + right. exists l, nm, vl. split; [now right | auto].
Qed.

Lemma resolve_aliases_spec ns al l : forall st,
  List.NoDup (map snd l) ->
  (forall e, In e l -> exists name value,
        heap st !! snd e = Some (mkNode NoLocation (Alias name value None))) ->
  exists st',
    forM_ (resolve_alias ns al) l st = Ok (tt, st')
    /\ all st' = all st
    /\ (forall x, ~ In x (map snd l) -> heap st' !! x = heap st !! x)
    /\ (forall e name value, In e l ->
          heap st !! snd e = Some (mkNode NoLocation (Alias name value None)) ->
          heap st' !! snd e
          = Some (mkNode NoLocation (Alias name value (alias_target ns al value)))).
Proof.
  induction l as [|e l IH]; intros st Hnd Hnodes.
  - exists st. simpl. unfold ret. repeat split; auto. intros ? ? ? [].
  - simpl in Hnd. apply List.NoDup_cons_iff in Hnd as [Hnotin Hnd].
    destruct (Hnodes e (or_introl eq_refl)) as (name & value & Hn).
    assert (Hstep : exists st1,
               resolve_alias ns al e st = Ok (tt, st1)
               /\ all st1 = all st
               /\ (forall x, x <> snd e -> heap st1 !! x = heap st !! x)
               /\ heap st1 !! snd e
                  = Some (mkNode NoLocation (Alias name value (alias_target ns al value)))).
    { unfold resolve_alias, bind, load, lift, read. rewrite Hn. cbn [data location].
      unfold alias_target, store, modify, ret.
      assert (Hlt : (snd e < length (heap st))%nat) by now apply lookup_lt_Some in Hn.
      destruct (PyDict.get (KStr value) ns) as [t|].
      - eexists. split; [reflexivity|]. cbn [all heap with_heap].
        split; [reflexivity|]. split.
        + intros x Hx. now apply list_lookup_insert_ne.
        + now apply list_lookup_insert_eq.
      - destruct (PyDict.get (KStr value) al) as [t|].
        + eexists. split; [reflexivity|]. cbn [all heap with_heap].
          split; [reflexivity|]. split.
          * intros x Hx. now apply list_lookup_insert_ne.
          * now apply list_lookup_insert_eq.
        + exists st. auto. }
    destruct Hstep as (st1 & Hrun1 & Hall1 & Hoth1 & Hat1).
    destruct (IH st1 Hnd) as (st' & Hrun & Hall & Hout & Hin).
    { intros e' He'. destruct (Hnodes e' (or_intror He')) as (nm & vl & Hm).
      exists nm, vl. rewrite Hoth1; [exact Hm|].
      intros Heq. apply Hnotin. rewrite <- Heq. now apply in_map. }
    exists st'. simpl. unfold bind. rewrite Hrun1, Hrun.
    split; [reflexivity|]. split; [congruence|]. split.
    + intros x Hx. rewrite Hout by tauto. apply Hoth1. intros ->. tauto.
    + intros e' nm vl [<-|He'] Hm.
      * rewrite Hn in Hm. injection Hm as <- <-. rewrite Hout by exact Hnotin. exact Hat1.
      * apply Hin; [exact He'|]. rewrite Hoth1; [exact Hm|].
        intros Heq. apply Hnotin. rewrite <- Heq. now apply in_map.
Qed.

(** X9.  When [get_aliases] returns, the nodes that existed before are
    untouched, and there is the dict [aliases] of the names of the section:
    every line "name value" has its name in it, and a name of it is held,
    in [aliases] and in the registry alike, by a new Alias node of a line
    with that name.  The target of that node is the declaration that the
    namespace holds under the value, or else the alias that [aliases] holds
    under the value (that alias node itself, whatever its own target is),
    or else [None]. *)
Theorem aliases_resolve_one_hop (chunks : list string) (namespace : PyDict.dict nat)
        (st st' : parser) :
  get_aliases (Some (map CStr chunks)) namespace st = Ok (tt, st') ->
  exists aliases : PyDict.dict nat,
    (forall x, (x < length (heap st))%nat -> heap st' !! x = heap st !! x)
    /\ (forall line name value,
          In line (PyStr.splitlines (PyStr.join chunks)) ->
          PyStr.split1 line = [name; value] ->
          PyDict.get (KStr name) aliases <> None)
    /\ (forall name a, PyDict.get (KStr name) aliases = Some a ->
          (length (heap st) <= a)%nat
          /\ PyDict.get (KStr name) (all st') = Some a
          /\ exists line value,
               In line (PyStr.splitlines (PyStr.join chunks))
               /\ PyStr.split1 line = [name; value]
               /\ heap st' !! a
                  = Some (mkNode NoLocation
                            (Alias name value (alias_target namespace aliases value)))).
Proof.
  intros H. unfold get_aliases, bind, lift in H. rewrite join_text_strings in H.
  set (lines := PyStr.splitlines (PyStr.join chunks)) in *.
  destruct (read_aliases lines [] st) as [[al st1]|] eqn:Hread; [|discriminate H].
  assert (Hinv0 : aliases_inv (length (heap st)) [] st).
  { unfold aliases_inv. simpl. split; [lia|]. split; [constructor|].
    split; [constructor|]. intros ? ? []. }
  destruct (read_aliases_spec _ _ _ _ _ _ Hinv0 Hread)
    as ((_ & Hk & Hv & He) & Hlen & Hold & _ & Hnew & Horig).
  destruct (resolve_aliases_spec namespace al (PyDict.items al) st1)
    as (st2 & Hrun & Hall & Hout & Hin).
  { eapply Permutation_NoDup; [|exact Hv].
    apply Permutation_map. symmetry. apply items_perm. }
  { intros [k a] Hka. apply (proj1 (items_In _ _)) in Hka.
    destruct (He _ _ Hka) as (_ & nm & vl & _ & Hn & _). eauto. }
  rewrite Hrun in H. injection H as <-.
  exists al. split.
  - intros x Hx. rewrite Hout; [now apply Hold|].
    intros Hxin. apply in_map_iff in Hxin as ([k a] & Heq & Hka). simpl in Heq. subst a.
    apply (proj1 (items_In _ _)) in Hka. apply He in Hka as [[Hlo _] _]. lia.
  - split; [exact Hnew|].
    intros name a Hg. apply get_In in Hg.
    destruct (He _ _ Hg) as ([Hlo _] & nm & vl & Hkn & Hn & Hreg).
    injection Hkn as <-.
    split; [exact Hlo|]. split; [now rewrite Hall|].
    destruct (Horig _ _ Hg) as [[]|(line & nm2 & vl2 & Hl & Hs & Hkn2 & Hn2)].
    injection Hkn2 as <-. rewrite Hn in Hn2. injection Hn2 as <-.
    exists line, vl. split; [exact Hl|]. split; [exact Hs|].
    apply (Hin (KStr name, a)); [now apply (proj2 (items_In _ _)) | exact Hn].
Qed.

Lemma aliases_resolve_one_hop_witness :
  exists st',
    get_aliases (Some (map CStr [text_of ["A B"; "B C"; "C 5"]])) [] init = Ok (tt, st')
    /\ exists aliases : PyDict.dict nat,
         (forall x, (x < length (heap init))%nat -> heap st' !! x = heap init !! x)
         /\ (forall line name value,
               In line (PyStr.splitlines (PyStr.join [text_of ["A B"; "B C"; "C 5"]])) ->
               PyStr.split1 line = [name; value] ->
               PyDict.get (KStr name) aliases <> None)
         /\ (forall name a, PyDict.get (KStr name) aliases = Some a ->
               (length (heap init) <= a)%nat
               /\ PyDict.get (KStr name) (all st') = Some a
               /\ exists line value,
                    In line (PyStr.splitlines (PyStr.join [text_of ["A B"; "B C"; "C 5"]]))
                    /\ PyStr.split1 line = [name; value]
                    /\ heap st' !! a
                       = Some (mkNode NoLocation
                                 (Alias name value (alias_target [] aliases value)))).
Proof.
  eexists. split.
  - vm_compute. reflexivity.
  - apply (aliases_resolve_one_hop [text_of ["A B"; "B C"; "C 5"]] [] init).
    vm_compute. reflexivity.
Defined.

(** ** Macros *)

Lemma split_on1_two sep s : forall a b,
  PyStr.split_on1 sep s = [a; b] ->
  s = a +:+ String sep b /\ PyStr.mem sep a = false.
Proof.
  induction s as [|c r IH]; intros a b H; simpl in H; [discriminate H|].
  destruct (Ascii.eqb c sep) eqn:E.
  - apply Ascii.eqb_eq in E. injection H as <- <-. subst c. split; reflexivity.
  - destruct (PyStr.split_on1 sep r) as [|w ws] eqn:Hr; [discriminate H|].
    injection H as <- ->. destruct (IH _ _ eq_refl) as [-> Hm].
    split; [reflexivity|]. simpl. rewrite Hm, Ascii.eqb_sym, E. reflexivity.
Qed.

Lemma macro_line_run m st st' :
  macro_line m st = Ok (tt, st') ->
  exists name args body,
    PyStr.split1 m = [name +:+ args; body]
    /\ PyStr.startswith "(" args = true
    /\ PyStr.mem "(" name = false
    /\ st' = with_all (PyDict.set (KStr name) (length (heap st)) (all st))
                      (with_heap (heap st ++ [mkNode NoLocation (Macro name args body)]) st).
Proof.
  unfold macro_line. intros H.
  destruct (PyStr.split1 m) as [|header [|body [|]]]; try discriminate H.
  destruct (PyStr.split_on1 "(" header) as [|name [|args [|]]] eqn:Hs; try discriminate H.
  apply split_on1_two in Hs as [-> Hm].
  exists name, ("(" +:+ args), body.
  split; [reflexivity|]. split.
  { unfold PyStr.startswith. simpl. now destruct args. }
  split; [exact Hm|].
  unfold bind, new, register, modify in H. injection H as <-. reflexivity.
Qed.

Lemma macro_loop lines : forall st st',
  forM_ macro_line lines st = Ok (tt, st') ->
  length (heap st') = (length (heap st) + length lines)%nat
  /\ (forall x, (x < length (heap st))%nat -> heap st' !! x = heap st !! x)
  /\ (forall i line, lines !! i = Some line ->
        exists name args body,
          PyStr.split1 line = [name +:+ args; body]
          /\ PyStr.startswith "(" args = true
          /\ PyStr.mem "(" name = false
          /\ heap st' !! (length (heap st) + i)%nat
             = Some (mkNode NoLocation (Macro name args body)))
  /\ (forall i name args body,
        heap st' !! (length (heap st) + i)%nat
        = Some (mkNode NoLocation (Macro name args body)) ->
        (forall j args' body', (i < j)%nat ->
           heap st' !! (length (heap st) + j)%nat
           <> Some (mkNode NoLocation (Macro name args' body'))) ->
        PyDict.get (KStr name) (all st') = Some (length (heap st) + i)%nat)
  /\ (forall k,
        (forall i name args body,
           heap st' !! (length (heap st) + i)%nat
           = Some (mkNode NoLocation (Macro name args body)) -> k <> KStr name) ->
        PyDict.get k (all st') = PyDict.get k (all st)).
Proof.
  induction lines as [|m lines IH]; intros st st' H; simpl in H.
  - unfold ret in H. injection H as <-.
    split; [simpl; lia|]. split; [auto|]. split; [intros i line Hl; discriminate Hl|].
    split; [|auto].
    intros i name args body Hn _. apply lookup_lt_Some in Hn. lia.
  - unfold bind in H. destruct (macro_line m st) as [[[] st1]|] eqn:Hm; [|discriminate H].
    destruct (macro_line_run _ _ _ Hm) as (name & args & body & Hsplit & Hargs & Hname & ->).
    apply IH in H. cbn [heap all with_all with_heap] in H.
    rewrite length_app in H. cbn [length] in H.
    destruct H as (Hlen & Hold & Hnew & Hlast & Hframe).
    assert (Hhere : heap st' !! length (heap st)
                    = Some (mkNode NoLocation (Macro name args body))).
    { rewrite Hold by lia. now rewrite list_lookup_middle. }
    assert (Hshift : forall i, (length (heap st) + 1 + i = length (heap st) + S i)%nat)
      by (intros; lia).
    split; [simpl; lia|]. split.
    { intros x Hx. rewrite Hold by lia. now apply lookup_app_l. }
    split.
    { intros [|i] line Hl.
      - injection Hl as <-. exists name, args, body.
        rewrite Nat.add_0_r. auto.
      - destruct (Hnew i line Hl) as (n & a & b & ? & ? & ? & Hn).
        exists n, a, b. rewrite <- Hshift. auto. }
    split.
    { intros [|i] n a b Hn Hlater.
      - rewrite Nat.add_0_r in Hn. rewrite Hhere in Hn. injection Hn as <- <- <-.
        rewrite Hframe.
        + rewrite get_set_same, Nat.add_0_r. reflexivity.
        + intros i n a b Hn [= ->]. rewrite Hshift in Hn.
          apply (Hlater (S i) a b); [lia | exact Hn].
      - rewrite <- Hshift. apply (Hlast i n a b).
        + rewrite Hshift. exact Hn.
        + intros j a' b' Hj. rewrite Hshift. apply Hlater. lia. }
    intros k Hk. rewrite Hframe.
    + apply get_set_other. intros E. subst k.
      apply (Hk 0%nat name args body); [|reflexivity].
      rewrite Nat.add_0_r. exact Hhere.
    + intros i n a b Hn. apply (Hk (S i) n a b). rewrite <- Hshift. exact Hn.
Qed.

(** X10.  When [get_macros] returns, the nodes that existed before are
    untouched and every line of the section has made one new Macro node,
    in the order of the lines.  The line splits at its first blanks into
    a header and a body; the name and the args of the node, put together,
    are the header, the args begin at the first "(" of the header, so the
    name holds none.  The registry holds a name for the Macro of the last
    line with that name, and holds what it held before under every key
    that is not the name of a line. *)
Theorem macros_registered (chunks : list string) (st st' : parser) :
  get_macros (Some (map CStr chunks)) st = Ok (tt, st') ->
  length (heap st')
  = (length (heap st) + length (PyStr.splitlines (PyStr.join chunks)))%nat
  /\ (forall x, (x < length (heap st))%nat -> heap st' !! x = heap st !! x)
  /\ (forall i line, PyStr.splitlines (PyStr.join chunks) !! i = Some line ->
        exists name args body,
          PyStr.split1 line = [name +:+ args; body]
          /\ PyStr.startswith "(" args = true
          /\ PyStr.mem "(" name = false
          /\ heap st' !! (length (heap st) + i)%nat
             = Some (mkNode NoLocation (Macro name args body)))
  /\ (forall i name args body,
        heap st' !! (length (heap st) + i)%nat
        = Some (mkNode NoLocation (Macro name args body)) ->
        (forall j args' body', (i < j)%nat ->
           heap st' !! (length (heap st) + j)%nat
           <> Some (mkNode NoLocation (Macro name args' body'))) ->
        PyDict.get (KStr name) (all st') = Some (length (heap st) + i)%nat)
  /\ (forall k,
        (forall i name args body,
           heap st' !! (length (heap st) + i)%nat
           = Some (mkNode NoLocation (Macro name args body)) -> k <> KStr name) ->
        PyDict.get k (all st') = PyDict.get k (all st)).
Proof.
  intros H. unfold get_macros, bind, lift in H. rewrite join_text_strings in H.
  now apply macro_loop.
Qed.

Lemma macros_registered_witness :
  exists st',
    get_macros (Some (map CStr [text_of ["MAX(a,b) ((a)>(b)?(a):(b))"; "ID(x) x"; "MAX(a) a"]]))
               init = Ok (tt, st')
    /\ heap st' !! 0%nat = Some (mkNode NoLocation (Macro "MAX" "(a,b)" "((a)>(b)?(a):(b))"))
    /\ PyDict.get (KStr "MAX") (all st') = Some 2%nat
    /\ PyDict.get (KStr "ID") (all st') = Some 1%nat
    /\ length (heap st') = 3%nat.
Proof.
  eexists. split; [vm_compute; reflexivity|].
  split; [reflexivity|].
  split.
  - apply (proj1 (proj2 (proj2 (proj2
             (macros_registered
                [text_of ["MAX(a,b) ((a)>(b)?(a):(b))"; "ID(x) x"; "MAX(a) a"]]
                init _ eq_refl)))) 2%nat "MAX" "(a)" "a").
    + reflexivity.
    + intros j a b Hj Hn. apply lookup_lt_Some in Hn. simpl in Hn. lia.
  - split; reflexivity.
Defined.

(** ** The values of an enumeration *)

Lemma enum_value_element st f n name value d :
  last (context st) = Some (Some f) ->
  heap st !! f = Some n ->
  add_value (mkEnumValue name value) (data n) = Ok d ->
  forM_ handle (element "EnumValue" [("name", name); ("init", value)]) st
  = Ok (tt, with_cdata None (with_heap (<[f := mkNode (location n) d]> (heap st)) st)).
Proof.
  intros Hc Hf Hd. unfold element. cbn [forM_ handle].
  unfold bind at 1. unfold start_element. eval_visit_method.
  unfold bind at 1. unfold visit_EnumValue. unfold bind at 1.
  unfold context_top. rewrite Hc. unfold bind at 1.
  rewrite (attr_found "name" _ name) by reflexivity. unfold bind at 1.
  rewrite (attr_found "init" _ value) by reflexivity. unfold bind at 1.
  unfold load, lift, read.
  rewrite Hf. unfold bind at 1. rewrite Hd. unfold bind at 1.
  unfold store, modify, ret.
  change (str_in "EnumValue" has_subelements) with false. cbv iota.
  unfold bind at 1. unfold bind at 1. unfold end_element.
  change (str_in "EnumValue" has_subelements) with false. cbv iota.
  unfold bind, modify, ret. reflexivity.
Qed.

Lemma values_appended vals : forall st f ctx l name size align acc,
  context st = ctx ++ [Some f] ->
  heap st !! f = Some (mkNode l (Enumeration name size align acc)) ->
  exists st',
    GCCXMLParser.parse (enum_value_events vals) st = Ok (tt, st')
    /\ context st' = context st /\ all st' = all st
    /\ length (heap st') = length (heap st)
    /\ (forall x, x <> f -> heap st' !! x = heap st !! x)
    /\ heap st' !! f
       = Some (mkNode l (Enumeration name size align
                            (acc ++ map (fun v => mkEnumValue (fst v) (snd v)) vals))).
Proof.
  unfold GCCXMLParser.parse.
  induction vals as [|v vals IH]; intros st f ctx l name size align acc Hctx Hf.
  - exists st. simpl. rewrite app_nil_r. unfold ret. repeat split; auto.
  - assert (Hlast : last (context st) = Some (Some f)).
    { rewrite Hctx. apply last_snoc. }
    pose proof (enum_value_element st f _ (fst v) (snd v) _ Hlast Hf eq_refl) as Hel.
    cbn [data location add_value] in Hel.
    set (st1 := with_cdata None _) in Hel.
    destruct (IH st1 f ctx l name size align (acc ++ [mkEnumValue (fst v) (snd v)]))
      as (st' & Hrun & Hc' & Ha' & Hl' & Ho' & Hf').
    { exact Hctx. }
    { simpl. apply list_lookup_insert_eq. now apply lookup_lt_Some in Hf. }
    exists st'. unfold enum_value_events in *. cbn [flat_map].
    rewrite forM_app, Hel, Hrun.
    split; [reflexivity|]. split; [exact Hc'|]. split; [exact Ha'|].
    split; [rewrite Hl'; simpl; apply length_insert|].
    split.
    + intros x Hx. rewrite (Ho' x Hx). simpl. now apply list_lookup_insert_ne.
    + rewrite Hf'. cbn [map]. now rewrite <- app_assoc.
Qed.

Lemma start_Enumeration st (a : attrs) name size align :
  attr_get "name" a = Some name ->
  attr_get "size" a = Some size ->
  attr_get "align" a = Some align ->
  exists st1 l,
    start_element "Enumeration" a st = Ok (tt, st1)
    /\ context st1 = context st ++ [Some (length (heap st))]
    /\ length (heap st1) = S (length (heap st))
    /\ (forall x, (x < length (heap st))%nat -> heap st1 !! x = heap st !! x)
    /\ heap st1 !! length (heap st)
       = Some (mkNode l (Enumeration (CHECK_NAME name) size align [])).
Proof.
  intros Hn Hs Ha. unfold start_element. eval_visit_method.
  unfold bind at 1. unfold visit_Enumeration, bind.
  rewrite (attr_found _ _ _ _ Hn), (attr_found _ _ _ _ Hs), (attr_found _ _ _ _ Ha).
  unfold new, ret. cbn [heap with_heap].
  change (str_in "Enumeration" has_subelements) with true. cbv iota.
  unfold load, lift, read, store, modify. cbn [heap with_heap].
  destruct (attr_get "location" a) as [loc|], (attr_get "id" a) as [i|];
    cbn [heap with_heap]; rewrite ?list_lookup_middle by reflexivity;
    cbn [data location heap with_heap with_all context with_context all];
    eexists _, _; (split; [reflexivity|]);
    cbn [heap with_heap with_all context with_context];
    (split; [reflexivity|]);
    rewrite ?length_insert, ?length_app; cbn [length];
    (split; [lia|]); split;
    try (intros x Hx; rewrite ?list_lookup_insert_ne by lia; now apply lookup_app_l);
    rewrite ?list_lookup_insert_eq by (rewrite length_app; cbn [length]; lia);
    rewrite ?list_lookup_middle by reflexivity; reflexivity.
Qed.

(** X11.  The EnumValue elements nested in an Enumeration element (which
    has name, size and align) are appended to the enumeration as they
    come: after the events of the element, the node of the enumeration
    (the next free address) has the checked name and carries the values in
    document order, each with its name and its init text, which stays a
    string; the context stack is as before and no other object has
    changed. *)
Theorem enumeration_values_in_order (st : parser) (items : list (string * string))
        (vals : list (string * string)) (name size align : string) :
  attr_get "name" (dict_of items) = Some name ->
  attr_get "size" (dict_of items) = Some size ->
  attr_get "align" (dict_of items) = Some align ->
  exists st' l,
    GCCXMLParser.parse (Start "Enumeration" items :: enum_value_events vals
                          ++ [End "Enumeration" None]) st = Ok (tt, st')
    /\ context st' = context st
    /\ (forall x, (x < length (heap st))%nat -> heap st' !! x = heap st !! x)
    /\ heap st' !! length (heap st)
       = Some (mkNode l (Enumeration (CHECK_NAME name) size align
                            (map (fun v => mkEnumValue (fst v) (snd v)) vals))).
Proof.
  intros Hn Hs Ha.
  destruct (start_Enumeration st _ _ _ _ Hn Hs Ha) as (st1 & l & Hst & Hc1 & Hl1 & Ho1 & Hf1).
  destruct (values_appended vals st1 _ _ _ _ _ _ [] Hc1 Hf1)
    as (st2 & Hrun & Hc2 & _ & Hl2 & Ho2 & Hf2).
  exists (with_cdata None (with_context (context st) st2)), l.
  split.
  - unfold GCCXMLParser.parse in *. cbn [forM_ handle]. unfold bind at 1. rewrite Hst.
    rewrite forM_app, Hrun. cbn [forM_ handle]. unfold end_element.
    change (str_in "Enumeration" has_subelements) with true. cbv iota.
    unfold bind, ret, modify. rewrite Hc2, Hc1.
    destruct (context st ++ [Some (length (heap st))]) as [|c0 cs] eqn:E.
    + now destruct (context st).
    + rewrite <- E, removelast_last. reflexivity.
  - split; [reflexivity|]. cbn [heap with_cdata with_context]. split.
    + intros x Hx. rewrite Ho2 by lia. now apply Ho1.
    + exact Hf2.
Qed.

Lemma enumeration_values_in_order_witness :
  exists st' l,
    GCCXMLParser.parse
      (Start "Enumeration" [("id", "_7"); ("name", "colour"); ("size", "32"); ("align", "32")]
         :: enum_value_events [("RED", "0"); ("GREEN", "1"); ("BLUE", "2")]
         ++ [End "Enumeration" None]) init = Ok (tt, st')
    /\ context st' = context init
    /\ (forall x, (x < length (heap init))%nat -> heap st' !! x = heap init !! x)
    /\ heap st' !! length (heap init)
       = Some (mkNode l (Enumeration (CHECK_NAME "colour") "32" "32"
                            [mkEnumValue "RED" "0"; mkEnumValue "GREEN" "1";
                             mkEnumValue "BLUE" "2"])).
Proof.
  apply (enumeration_values_in_order init
           [("id", "_7"); ("name", "colour"); ("size", "32"); ("align", "32")]
           [("RED", "0"); ("GREEN", "1"); ("BLUE", "2")] "colour" "32" "32");
    reflexivity.
Defined.

(** ** The text of a dump section *)

(** X12.  A CPP_DUMP element without a name attribute raises the
    [KeyError] of "name".  With the name [n], the element and its end
    leave under [n] a list that holds the text of the element as its one
    chunk, or nothing when the element has no text: what an earlier
    section of that name had collected is replaced.  The other sections,
    the registry, the objects and the context stack are as before, and no
    section is open afterwards. *)
Theorem dump_section_text (st : parser) (items : list (string * string))
        (text : option string) :
  match attr_get "name" (dict_of items) with
  | None =>
      GCCXMLParser.parse [Start "CPP_DUMP" items; End "CPP_DUMP" text] st
      = Err (KeyError (KStr "name"))
  | Some n =>
      exists st',
        GCCXMLParser.parse [Start "CPP_DUMP" items; End "CPP_DUMP" text] st = Ok (tt, st')
        /\ PyDict.get (KStr n) (cpp_data st')
           = Some (match text with
                   | Some (String c r) => [CStr (String c r)]
                   | _ => []
                   end)
        /\ (forall k, k <> KStr n ->
              PyDict.get k (cpp_data st') = PyDict.get k (cpp_data st))
        /\ cdata st' = None
        /\ heap st' = heap st /\ all st' = all st /\ context st' = context st
  end.
Proof.
  unfold GCCXMLParser.parse. cbn [forM_ handle].
  unfold bind at 1. unfold start_element. eval_visit_method.
  unfold bind at 1. unfold visit_CPP_DUMP. unfold bind at 1.
  destruct (attr_get "name" (dict_of items)) as [n|] eqn:Hn.
  - rewrite (attr_found _ _ _ _ Hn). unfold bind at 1. unfold modify at 1.
    unfold ret at 1. unfold bind at 1.
    change (str_in "CPP_DUMP" has_subelements) with false. cbv iota.
    unfold ret at 1. unfold bind at 1. unfold bind at 1. unfold end_element.
    change (str_in "CPP_DUMP" has_subelements) with false. cbv iota.
    destruct text as [[|c r]|].
    + unfold bind, ret, modify. eexists. split; [reflexivity|].
      cbn [cpp_data cdata heap all context with_cdata with_cpp_data].
      split; [apply get_set_same|]. split; [|auto].
      intros k Hk. apply get_set_other. congruence.
    + unfold visit_Characters. unfold ret at 1.
      cbn [cdata cpp_data with_cdata with_cpp_data].
      rewrite get_set_same. unfold bind, ret, modify. eexists. split; [reflexivity|].
      cbn [cpp_data cdata heap all context with_cdata with_cpp_data].
      split; [apply get_set_same|]. split; [|auto].
      intros k Hk. rewrite !get_set_other by congruence. reflexivity.
    + unfold bind, ret, modify. eexists. split; [reflexivity|].
      cbn [cpp_data cdata heap all context with_cdata with_cpp_data].
      split; [apply get_set_same|]. split; [|auto].
      intros k Hk. apply get_set_other. congruence.
  - unfold bind. rewrite (attr_missing _ _ _ Hn). reflexivity.
Qed.
